(** * Conway's Game of Life (OpenMP variants): the generation-update engine

    A shallow embedding of [game_of_life_text.c] and [game_of_life_visual.c]:
    the toroidal neighbour counter, the per-cell transition, the serial and
    the parallel generation updates, the grid initialisers, the live-cell
    count, the density option of the command line and the "best version"
    selection of the benchmark report.

    C data are kept as they are in the source: an [int] is a [Z], a [char]
    is an [ascii], a [char grid[GRID_SIZE][GRID_SIZE]] is a list of rows,
    a [float]/[double] is an IEEE 754 value ([spec_float]). *)

From Stdlib Require Import ZArith List Ascii String Bool Lia.
From Stdlib Require Import Floats.SpecFloat.
From stdpp Require Import base list.
Import ListNotations.

#[local] Open Scope Z_scope.

(** ** Constants ([#define]s of both files) *)

Definition GRID_SIZE : Z := 100.
Definition ITERATIONS : nat := 100.
Definition CENTER_SIZE : Z := 10.
Definition MEASUREMENTS : Z := 5.

(** ** Cells and grids *)

Abbreviation cell := ascii (only parsing).
Definition ALIVE : cell := "*"%char.
Definition DEAD : cell := "."%char.

(** [grid[i][j] == '*'] *)
Definition is_alive (c : cell) : bool := Ascii.eqb c ALIVE.

(** [char grid[GRID_SIZE][GRID_SIZE]]: [GRID_SIZE] rows of [GRID_SIZE]
    chars.  The C type fixes the shape; here it is the invariant [wf]. *)
Abbreviation Grid := (list (list cell)) (only parsing).

Definition wf (g : Grid) : Prop :=
  length g = Z.to_nat GRID_SIZE /\
  Forall (fun r : list cell => length r = Z.to_nat GRID_SIZE) g.

Definition in_range (i : Z) : bool := (0 <=? i) && (i <? GRID_SIZE).

(** [grid[i][j]] as an rvalue.  An index outside the array is undefined
    behaviour in C; the model reads NUL there (no modelled function does). *)
Definition get (g : Grid) (i j : Z) : cell :=
  if in_range i && in_range j then
    match g !! Z.to_nat i with
    | Some r => match r !! Z.to_nat j with
                | Some c => c
                | None => zero
                end
    | None => zero
    end
  else zero.

(** [grid[i][j] = v].  Outside the array the model leaves the grid alone. *)
Definition set (g : Grid) (i j : Z) (v : cell) : Grid :=
  if in_range i && in_range j then
    match g !! Z.to_nat i with
    | Some r => <[Z.to_nat i := <[Z.to_nat j := v]> r]> g
    | None => g
    end
  else g.

(** [for (int i = lo; i < hi; i++) body], threading the state. *)
Definition for_range {S : Type} (lo hi : Z) (body : Z -> S -> S) (s : S) : S :=
  fold_left (fun s i => body i s) (seqZ lo (hi - lo)) s.

(** The two grids every update works on. *)
Record sim := Sim { grid : Grid; next_grid : Grid }.

(** ** Neighbour counter ([count_neighbors], identical in both files) *)

(** C's [%] truncates towards zero: [Z.rem]. *)
Definition count_neighbors (g : Grid) (row col : Z) : Z :=
  for_range (-1) 2 (fun i count =>
    for_range (-1) 2 (fun j count =>
      if (i =? 0) && (j =? 0) then count
      else
        let neighbor_row := Z.rem (row + i + GRID_SIZE) GRID_SIZE in
        let neighbor_col := Z.rem (col + j + GRID_SIZE) GRID_SIZE in
        if is_alive (get g neighbor_row neighbor_col) then count + 1
        else count) count) 0.

(** ** Transition: the body of the inner loop of every update variant *)

Definition apply_rules (c : cell) (neighbors : Z) : cell :=
  if is_alive c then
    if (neighbors <? 2) || (neighbors >? 3) then DEAD else ALIVE
  else
    if neighbors =? 3 then ALIVE else DEAD.

(** [int neighbors = count_neighbors(grid, i, j); if (grid[i][j] == '*') ...] *)
Definition next_cell (g : Grid) (i j : Z) : cell :=
  apply_rules (get g i j) (count_neighbors g i j).

(** ** Serial update *)

(** The double loop that fills [next_grid] from [grid]. *)
Definition compute_next (g ng : Grid) : Grid :=
  for_range 0 GRID_SIZE (fun i ng =>
    for_range 0 GRID_SIZE (fun j ng => set ng i j (next_cell g i j)) ng) ng.

(** [memcpy(grid, next_grid, GRID_SIZE * GRID_SIZE * sizeof(char))]: the
    byte count is the whole object, so [grid] gets the contents of
    [next_grid]. *)
Definition memcpy_grid (dst src : Grid) : Grid := src.

(** The element-wise copy loop of [game_of_life_visual.c]. *)
Definition copy_back (g ng : Grid) : Grid :=
  for_range 0 GRID_SIZE (fun i g =>
    for_range 0 GRID_SIZE (fun j g => set g i j (get ng i j)) g) g.

(** [update_grid_serial] of [game_of_life_visual.c]: one generation. *)
Definition update_grid_serial (st : sim) : sim :=
  let ng := compute_next (grid st) (next_grid st) in
  Sim (copy_back (grid st) ng) ng.

(** One turn of the [iter] loop of [simulate_serial]. *)
Definition serial_generation (st : sim) : sim :=
  let ng := compute_next (grid st) (next_grid st) in
  Sim (memcpy_grid (grid st) ng) ng.

(** [simulate_serial] of [game_of_life_text.c], with the bound of the
    [iter] loop as a parameter. *)
Definition simulate_serial_iters (n : nat) (st : sim) : sim :=
  Nat.iter n serial_generation st.

Definition simulate_serial : sim -> sim := simulate_serial_iters ITERATIONS.


(** ** Parallel updates ([#pragma omp parallel for] over the rows)

    Every thread of the team runs the loop body for the rows the schedule
    gives it; the body for row [i] performs the stores of the inner [j]
    loop, each store reading only [grid].  An execution of the parallel
    loop is an interleaving of the threads' stores; the loop ends with
    the implicit barrier, so the code after it sees all of them. *)

(** The stores of the loop body for row [i], in the order of the [j] loop. *)
Definition row_cells (i : Z) : list (Z * Z) := map (pair i) (seqZ 0 GRID_SIZE).

(** The stores of a thread that executes the rows [rs]. *)
Definition thread_stores (rs : list Z) : list (Z * Z) := flat_map row_cells rs.

(** [schedule(static, 1)] with [T] threads: chunks of one row, dealt
    round-robin, so thread [t] executes the rows [t], [t + T], ... *)
Definition static_schedule (T : Z) : list (list Z) :=
  map (fun t => List.filter (fun i => Z.rem i T =? t) (seqZ 0 GRID_SIZE)) (seqZ 0 T).

(** [schedule(guided, 1)]: the rows are cut from 0 upwards into chunks of
    at least one row, and each chunk goes to the thread that asks next.
    [chunks] lists (thread, size) in the order the chunks are handed out;
    the sizes and the owners are the run-time's choice. *)
Fixpoint deal (start : Z) (chunks : list (Z * Z)) (t : Z) : list Z :=
  match chunks with
  | [] => []
  | (owner, size) :: rest =>
      (if owner =? t then seqZ start size else []) ++ deal (start + size) rest t
  end.

Definition guided_schedule (T : Z) (chunks : list (Z * Z)) : list (list Z) :=
  map (deal 0 chunks) (seqZ 0 T).

Definition valid_chunks (T : Z) (chunks : list (Z * Z)) : bool :=
  forallb (fun c => (0 <=? fst c) && (fst c <? T) && (1 <=? snd c)) chunks
  && (fold_right Z.add 0 (map snd chunks) =? GRID_SIZE).

(** [take_head x ts]: the thread whose next store is [x] performs it. *)
Fixpoint take_head (x : Z * Z) (ts : list (list (Z * Z))) : option (list (list (Z * Z))) :=
  match ts with
  | [] => None
  | t :: ts' =>
      match t with
      | y :: t' =>
          if (fst x =? fst y) && (snd x =? snd y) then Some (t' :: ts')
          else option_map (cons t) (take_head x ts')
      | [] => option_map (cons t) (take_head x ts')
      end
  end.

(** [order] is an interleaving of the threads' store sequences [ts]. *)
Fixpoint interleaves (ts : list (list (Z * Z))) (order : list (Z * Z)) : bool :=
  match order with
  | [] => forallb (fun t => match t with [] => true | _ => false end) ts
  | x :: order' =>
      match take_head x ts with
      | Some ts' => interleaves ts' order'
      | None => false
      end
  end.

Definition static_execution (T : Z) (order : list (Z * Z)) : bool :=
  (1 <=? T) && interleaves (map thread_stores (static_schedule T)) order.

Definition guided_execution (T : Z) (chunks : list (Z * Z)) (order : list (Z * Z)) : bool :=
  (1 <=? T) && valid_chunks T chunks
  && interleaves (map thread_stores (guided_schedule T chunks)) order.

(** A sequence of stores [ng[i][j] = f i j], in the order given. *)
Definition write_cells (f : Z -> Z -> cell) (order : list (Z * Z)) (ng : Grid) : Grid :=
  fold_left (fun ng p => set ng (fst p) (snd p) (f (fst p) (snd p))) order ng.

(** The parallel loop that fills [next_grid], executed in [order]. *)
Definition compute_next_parallel (order : list (Z * Z)) (g ng : Grid) : Grid :=
  write_cells (next_cell g) order ng.

(** [#pragma omp critical { body }] met outside any parallel region: one
    thread, nobody holds the lock, the body runs. *)
Definition omp_critical {A : Type} (body : A) : A := body.

(** One turn of the [iter] loop of [simulate_parallel_static] and of
    [simulate_parallel_guided]. *)
Definition parallel_generation (order : list (Z * Z)) (st : sim) : sim :=
  let ng := compute_next_parallel order (grid st) (next_grid st) in
  Sim (omp_critical (memcpy_grid (grid st) ng)) ng.

(** One turn of the [iter] loop of the two [_no_critical] functions. *)
Definition parallel_generation_no_critical (order : list (Z * Z)) (st : sim) : sim :=
  let ng := compute_next_parallel order (grid st) (next_grid st) in
  Sim (memcpy_grid (grid st) ng) ng.

(** [for (int iter = 0; iter < n; iter++) st = gen iter st]. *)
Fixpoint generations (gen : nat -> sim -> sim) (n : nat) (st : sim) : sim :=
  match n with
  | O => st
  | S m => gen m (generations gen m st)
  end.

(** The four parallel simulations of [game_of_life_text.c].  [orders iter]
    is the execution of the parallel loop in generation [iter]. *)
Definition simulate_parallel_static_iters (n : nat) (orders : nat -> list (Z * Z)) : sim -> sim :=
  generations (fun iter => parallel_generation (orders iter)) n.

Definition simulate_parallel_guided_iters (n : nat) (orders : nat -> list (Z * Z)) : sim -> sim :=
  generations (fun iter => parallel_generation (orders iter)) n.

Definition simulate_parallel_static_no_critical_iters (n : nat) (orders : nat -> list (Z * Z)) : sim -> sim :=
  generations (fun iter => parallel_generation_no_critical (orders iter)) n.

Definition simulate_parallel_guided_no_critical_iters (n : nat) (orders : nat -> list (Z * Z)) : sim -> sim :=
  generations (fun iter => parallel_generation_no_critical (orders iter)) n.

Definition simulate_parallel_static := simulate_parallel_static_iters ITERATIONS.
Definition simulate_parallel_guided := simulate_parallel_guided_iters ITERATIONS.
Definition simulate_parallel_static_no_critical :=
  simulate_parallel_static_no_critical_iters ITERATIONS.
Definition simulate_parallel_guided_no_critical :=
  simulate_parallel_guided_no_critical_iters ITERATIONS.

(** [update_grid_parallel] of [game_of_life_visual.c]: both the compute
    loop and the copy loop are parallel loops. *)
Definition update_grid_parallel (order copy_order : list (Z * Z)) (st : sim) : sim :=
  let ng := compute_next_parallel order (grid st) (next_grid st) in
  Sim (write_cells (get ng) copy_order (grid st)) ng.

(** ** Initialisers *)

(** The "set all cells to dead" loops. *)
Definition clear_grid (g : Grid) : Grid :=
  for_range 0 GRID_SIZE (fun i g =>
    for_range 0 GRID_SIZE (fun j g => set g i j DEAD) g) g.

(** [initialize_grid]: the centred block.  [/] on [int] is [Z.quot]. *)
Definition initialize_grid (g : Grid) : Grid :=
  let g := clear_grid g in
  let start_row := Z.quot (GRID_SIZE - CENTER_SIZE) 2 in
  let start_col := Z.quot (GRID_SIZE - CENTER_SIZE) 2 in
  for_range 0 CENTER_SIZE (fun i g =>
    for_range 0 CENTER_SIZE (fun j g =>
      set g (start_row + i) (start_col + j) ALIVE) g) g.

(** The five stores of the glider pattern. *)
Definition place_glider (start_row start_col : Z) (g : Grid) : Grid :=
  let g := set g start_row (start_col + 1) ALIVE in
  let g := set g (start_row + 1) (start_col + 2) ALIVE in
  let g := set g (start_row + 2) start_col ALIVE in
  let g := set g (start_row + 2) (start_col + 1) ALIVE in
  set g (start_row + 2) (start_col + 2) ALIVE.

(** The "add some random cells" loop, run [n] times; [rand k] is the
    value of the [k]-th call of [rand()]. *)
Definition add_random_cells (n : Z) (rand : Z -> Z) (g : Grid) : Grid :=
  for_range 0 n (fun i g =>
    let row := Z.rem (rand (2 * i)) GRID_SIZE in
    let col := Z.rem (rand (2 * i + 1)) GRID_SIZE in
    set g row col ALIVE) g.

(** [initialize_glider_grid]. *)
Definition initialize_glider_grid (rand : Z -> Z) (g : Grid) : Grid :=
  add_random_cells 100 rand (place_glider 10 10 (clear_grid g)).

(** ** Live-cell count ([count_live_cells], a [reduction(+:count)])

    Each thread counts the rows it is given into a private [count] that
    starts at 0; the private counts are added up at the end. *)
Definition count_rows (g : Grid) (rs : list Z) : Z :=
  fold_left (fun count i =>
    for_range 0 GRID_SIZE (fun j count =>
      if is_alive (get g i j) then count + 1 else count) count) rs 0.

Definition count_live_cells (team : list (list Z)) (g : Grid) : Z :=
  fold_left Z.add (map (count_rows g) team) 0.

(** ** The density option of [main] ([game_of_life_visual.c]) *)

(** IEEE 754 binary32 literals of the source. *)
Definition float_zero : spec_float := S754_zero false.
Definition float_one : spec_float := S754_finite false 8388608 (-23).
(** [0.3f], that is 10066330 * 2^-25. *)
Definition default_density : spec_float := S754_finite false 10066330 (-25).

(** [if (random_density <= 0 || random_density >= 1) random_density = 0.3f;] *)
Definition check_density (random_density : spec_float) : spec_float :=
  if SFleb random_density float_zero || SFleb float_one random_density
  then default_density else random_density.

Record options := Options {
  use_parallel : bool;
  pattern_choice : Z;
  random_density : spec_float;
  show_help : bool;
  show_stats : bool
}.

Definition initial_options : options := Options false 0 default_density false true.

Definition first_char_is_dash (s : string) : bool :=
  match s with
  | String c _ => Ascii.eqb c "-"%char
  | EmptyString => false
  end.

Section CommandLine.

(** [(float)atof(s)], from the C library. *)
Variable atof : string -> spec_float.

(** The argument loop of [main], over [argv[1..]]. *)
Fixpoint parse_args (args : list string) (o : options) : options :=
  match args with
  | [] => o
  | a :: rest =>
      if String.eqb a "-p" || String.eqb a "--parallel" then
        parse_args rest
          (Options true (pattern_choice o) (random_density o) (show_help o) (show_stats o))
      else if String.eqb a "-r" || String.eqb a "--random" then
        match rest with
        | next :: rest' =>
            if negb (first_char_is_dash next) then
              parse_args rest'
                (Options (use_parallel o) 1 (check_density (atof next))
                   (show_help o) (show_stats o))
            else
              parse_args rest
                (Options (use_parallel o) 1 (random_density o) (show_help o) (show_stats o))
        | [] =>
            Options (use_parallel o) 1 (random_density o) (show_help o) (show_stats o)
        end
      else if String.eqb a "-g" || String.eqb a "--glider" then
        parse_args rest
          (Options (use_parallel o) 2 (random_density o) (show_help o) (show_stats o))
      else if String.eqb a "-h" || String.eqb a "--help" then
        parse_args rest
          (Options (use_parallel o) (pattern_choice o) (random_density o) true (show_stats o))
      else if String.eqb a "-n" || String.eqb a "--no-stats" then
        parse_args rest
          (Options (use_parallel o) (pattern_choice o) (random_density o) (show_help o) false)
      else parse_args rest o
  end.

(** The density [main] hands to [initialize_random_grid]. *)
Definition density_used (args : list string) : spec_float :=
  random_density (parse_args args initial_options).

End CommandLine.

(** [initialize_random_grid]: [(float)rand() / RAND_MAX < density] for each
    cell, in binary32 arithmetic; [rand k] is the [k]-th value of [rand()]. *)
Definition float_of_int (n : Z) : spec_float := binary_normalize 24 128 n 0 false.

Definition initialize_random_grid (RAND_MAX : Z) (rand : Z -> Z)
    (density : spec_float) (g : Grid) : Grid :=
  for_range 0 GRID_SIZE (fun i g =>
    for_range 0 GRID_SIZE (fun j g =>
      let r := float_of_int (rand (i * GRID_SIZE + j)) in
      if SFltb (SFdiv 24 128 r (float_of_int RAND_MAX)) density
      then set g i j ALIVE else set g i j DEAD) g) g.

(** ** The "best performance" selection of the report ([game_of_life_text.c]) *)

Definition best_of (serial_time static_time guided_time
    static_no_critical_time guided_no_critical_time : spec_float) : spec_float * string :=
  let best := (serial_time, "Serial"%string) in
  let best := if SFltb static_time (fst best)
              then (static_time, "Parallel (Static)"%string) else best in
  let best := if SFltb guided_time (fst best)
              then (guided_time, "Parallel (Guided)"%string) else best in
  let best := if SFltb static_no_critical_time (fst best)
              then (static_no_critical_time, "Parallel (Static No Critical)"%string)
              else best in
  if SFltb guided_no_critical_time (fst best)
  then (guided_no_critical_time, "Parallel (Guided No Critical)"%string)
  else best.

(** The labels in the order the report considers the versions. *)
Definition version_labels : list string :=
  ["Serial"; "Parallel (Static)"; "Parallel (Guided)";
   "Parallel (Static No Critical)"; "Parallel (Guided No Critical)"]%string.

(** ** Definitions used to state the results *)

Definition rows : list Z := seqZ 0 GRID_SIZE.

(** The grid whose cell [(i, j)] is [f i j]. *)
Definition tabulate (f : Z -> Z -> cell) : Grid :=
  (fun i => f i <$> rows) <$> rows.

(** The next generation of [g] as a value. *)
Definition step (g : Grid) : Grid := tabulate (next_cell g).

(** The cells in the order of the two nested [for] loops. *)
Definition all_cells : list (Z * Z) := flat_map row_cells rows.

(** An order of stores is complete when it reaches every cell. *)
Definition complete (order : list (Z * Z)) : Prop :=
  forall i j, in_range i = true -> in_range j = true -> (i, j) ∈ order.

(** The grid with every cell DEAD. *)
Definition dead_grid : Grid := tabulate (fun _ _ => DEAD).

(** Wrap-around of a coordinate, as the spec words it: modulo the grid size. *)
Definition wrap (i : Z) : Z := i mod GRID_SIZE.

(** The Moore neighbourhood of [(row, col)] on the torus, as the spec words
    it: the 8 cells adjacent horizontally, vertically and diagonally. *)
Definition moore_neighbors (row col : Z) : list (Z * Z) :=
  [ (wrap (row - 1), wrap (col - 1)); (wrap (row - 1), col); (wrap (row - 1), wrap (col + 1));
    (row, wrap (col - 1));                                    (row, wrap (col + 1));
    (wrap (row + 1), wrap (col - 1)); (wrap (row + 1), col); (wrap (row + 1), wrap (col + 1)) ].

(** The number of ALIVE cells among [cells]. *)
Definition count_alive (g : Grid) (cells : list (Z * Z)) : Z :=
  Z.of_nat (length (List.filter (fun p => is_alive (get g (fst p) (snd p))) cells)).

(** The ALIVE cells of row [i], counted by the inner loop from 0. *)
Definition row_count (g : Grid) (i : Z) : Z :=
  for_range 0 GRID_SIZE (fun j count =>
    if is_alive (get g i j) then count + 1 else count) 0.

(** The cells of the 2x2 block whose top-left corner is [(r, c)]; a block
    on the last row or column continues on the first one. *)
Definition in_block (r c i j : Z) : bool :=
  ((i =? r) || (i =? wrap (r + 1))) && ((j =? c) || (j =? wrap (c + 1))).

(** [g] holds one 2x2 block at [(r, c)] and nothing else. *)
Definition is_block_grid (r c : Z) (g : Grid) : Prop :=
  wf g /\ in_range r = true /\ in_range c = true /\
  forall i j, in_range i = true -> in_range j = true ->
    get g i j = if in_block r c i j then ALIVE else DEAD.

(** The update variants of the two files, each with what the OpenMP
    run-time chooses when it runs: the number of threads and, for every
    generation, the chunks handed out and the interleaving of the stores. *)
Inductive variant :=
  | Serial
  | ParallelStatic (T : Z) (orders : nat -> list (Z * Z))
  | ParallelGuided (T : Z) (chunks : nat -> list (Z * Z)) (orders : nat -> list (Z * Z))
  | ParallelStaticNoCritical (T : Z) (orders : nat -> list (Z * Z))
  | ParallelGuidedNoCritical (T : Z) (chunks : nat -> list (Z * Z))
      (orders : nat -> list (Z * Z))
  | VisualSerial
  | VisualParallel (T : Z) (chunks copy_chunks : nat -> list (Z * Z))
      (orders copy_orders : nat -> list (Z * Z)).

(** [n] generations of a variant on the pair (grid, scratch grid). *)
Definition run (v : variant) (n : nat) : sim -> sim :=
  match v with
  | Serial => simulate_serial_iters n
  | ParallelStatic _ orders => simulate_parallel_static_iters n orders
  | ParallelGuided _ _ orders => simulate_parallel_guided_iters n orders
  | ParallelStaticNoCritical _ orders => simulate_parallel_static_no_critical_iters n orders
  | ParallelGuidedNoCritical _ _ orders => simulate_parallel_guided_no_critical_iters n orders
  | VisualSerial => Nat.iter n update_grid_serial
  | VisualParallel _ _ _ orders copy_orders =>
      generations (fun iter => update_grid_parallel (orders iter) (copy_orders iter)) n
  end.

(** The run-time's choices are executions of the loops as scheduled. *)
Definition admissible (v : variant) : Prop :=
  match v with
  | Serial | VisualSerial => True
  | ParallelStatic T orders | ParallelStaticNoCritical T orders =>
      forall iter, static_execution T (orders iter) = true
  | ParallelGuided T chunks orders | ParallelGuidedNoCritical T chunks orders =>
      forall iter, guided_execution T (chunks iter) (orders iter) = true
  | VisualParallel T chunks copy_chunks orders copy_orders =>
      forall iter, guided_execution T (chunks iter) (orders iter) = true /\
                   guided_execution T (copy_chunks iter) (copy_orders iter) = true
  end.

(** [run_simulation] of [game_of_life_text.c], without the clock: the two
    local arrays start with whatever the stack holds, [initialize_grid]
    fills the first, the simulation runs, and the final grid is printed. *)
Definition run_simulation (v : variant) (stack_grid stack_next_grid : Grid) : Grid :=
  grid (run v ITERATIONS (Sim (initialize_grid stack_grid) stack_next_grid)).

(** The five cells of the glider placed at rows and columns 10 to 12. *)
Definition glider_cells : list (Z * Z) :=
  [(10, 11); (11, 12); (12, 10); (12, 11); (12, 12)].

(** A shape moved by [(dr, dc)] on the torus. *)
Definition translate (dr dc : Z) (cells : list (Z * Z)) : list (Z * Z) :=
  map (fun p => (wrap (fst p + dr), wrap (snd p + dc))) cells.

Definition cell_in (i j : Z) (cells : list (Z * Z)) : bool :=
  existsb (fun p => (fst p =? i) && (snd p =? j)) cells.

(** The ALIVE cells of [g] are exactly [cells]; the others are DEAD. *)
Definition shows (g : Grid) (cells : list (Z * Z)) : Prop :=
  forall i j, in_range i = true -> in_range j = true ->
    get g i j = if cell_in i j cells then ALIVE else DEAD.

(** Sample run-time choices: four threads that run one after the other,
    the last one first, and a guided hand-out of shrinking chunks. *)
Definition threads_in_turn (team : list (list Z)) : list (Z * Z) :=
  concat (rev (map thread_stores team)).

Definition sample_chunks : list (Z * Z) :=
  [(0, 25); (1, 19); (2, 14); (3, 11); (1, 8); (0, 6); (3, 5); (2, 4);
   (0, 3); (1, 2); (2, 1); (3, 1); (0, 1)].

Definition sample_static_order : list (Z * Z) := threads_in_turn (static_schedule 4).
Definition sample_guided_order : list (Z * Z) :=
  threads_in_turn (guided_schedule 4 sample_chunks).

(** Four threads in lock step: the rows [4b .. 4b+3] advance together, one
    column at a time. *)
Definition lock_step_order : list (Z * Z) :=
  flat_map (fun b =>
    flat_map (fun j => map (fun t => (4 * b + t, j)) (seqZ 0 4)) (seqZ 0 GRID_SIZE))
    (seqZ 0 25).

(** A scratch grid full of some other byte. *)
Definition junk_grid : Grid := tabulate (fun _ _ => "x"%char).

(** A float that is a number: anything but NaN. *)
Definition is_number (x : spec_float) : bool :=
  match x with
  | S754_nan => false
  | _ => true
  end.

(** [x] lies in the open interval (0,1). *)
Definition in_unit_interval (x : spec_float) : bool :=
  SFltb float_zero x && SFltb x float_one.

(** [b], at position [k] of [times], is the lowest of [times], and the
    first one that low: everything before it is strictly greater. *)
Definition first_lowest (times : list spec_float) (k : nat) (b : spec_float) : Prop :=
  times !! k = Some b /\
  (forall t, t ∈ times -> SFleb b t = true) /\
  (forall j t, (j < k)%nat -> times !! j = Some t -> SFltb b t = true).

(** ** Further code of [game_of_life_visual.c] *)

Definition CELL_SIZE : Z := 8.
Definition WINDOW_WIDTH : Z := GRID_SIZE * CELL_SIZE.
Definition WINDOW_HEIGHT : Z := GRID_SIZE * CELL_SIZE.

(** [SDL_Rect]: x, y, w, h. *)
Record SDL_Rect := Rect { rect_x : Z; rect_y : Z; rect_w : Z; rect_h : Z }.

(** The pixels a filled rectangle covers. *)
Definition in_rect (r : SDL_Rect) (x y : Z) : bool :=
  (rect_x r <=? x) && (x <? rect_x r + rect_w r) &&
  (rect_y r <=? y) && (y <? rect_y r + rect_h r).

(** [SDL_Rect cell = {j * CELL_SIZE, i * CELL_SIZE, CELL_SIZE, CELL_SIZE};] *)
Definition cell_rect (i j : Z) : SDL_Rect :=
  Rect (j * CELL_SIZE) (i * CELL_SIZE) CELL_SIZE CELL_SIZE.

(** Draw colours (r, g, b, a) of [render_grid]. *)
Definition reddish : Z * Z * Z * Z := (255, 100, 100, 255).
Definition white : Z * Z * Z * Z := (255, 255, 255, 255).
Definition bluish : Z * Z * Z * Z := (100, 100, 255, 255).
Definition dark_gray : Z * Z * Z * Z := (20, 20, 20, 255).

(** The [switch (neighbors)] of [render_grid]. *)
Definition live_cell_color (neighbors : Z) : Z * Z * Z * Z :=
  if (neighbors =? 0) || (neighbors =? 1) then reddish
  else if (neighbors =? 2) || (neighbors =? 3) then white
  else bluish.

(** The colour [render_grid] fills the rectangle of cell [(i, j)] with. *)
Definition fill_color (g : Grid) (i j : Z) : Z * Z * Z * Z :=
  if is_alive (get g i j) then live_cell_color (count_neighbors g i j)
  else dark_gray.

(** [render_grid]: the filled rectangles, in the order they are drawn. *)
Definition render_grid (g : Grid) : list (SDL_Rect * (Z * Z * Z * Z)) :=
  for_range 0 GRID_SIZE (fun i out =>
    for_range 0 GRID_SIZE (fun j out =>
      out ++ [(cell_rect i j, fill_color g i j)]) out) [].



(** [print_simulation_info]: [char progress_bar[51] = {0}] and the loop
    that fills its first 50 places. *)
Definition progress_bar (generation : Z) : list ascii :=
  let progress := Z.quot (generation * 50) (Z.of_nat ITERATIONS) in
  for_range 0 50 (fun i bar =>
    if i <? progress then <[Z.to_nat i := "="%char]> bar
    else if i =? progress then <[Z.to_nat i := ">"%char]> bar
    else <[Z.to_nat i := " "%char]> bar) (repeat zero 51).

(** What [printf("%s", a)] prints: the chars before the first NUL. *)
Fixpoint c_string (a : list ascii) : list ascii :=
  match a with
  | [] => []
  | c :: a' => if Ascii.eqb c zero then [] else c :: c_string a'
  end.

(** The percentage printed after the bar. *)
Definition percent (generation : Z) : Z :=
  Z.quot (generation * 100) (Z.of_nat ITERATIONS).

(** *** The main loop of the window *)

(** The events the loop reacts to; [SDLK_r] comes with the values
    [rand()] will give after the [srand] of the reset. *)
Inductive event :=
  | SDL_QUIT
  | SDLK_ESCAPE
  | SDLK_p
  | SDLK_SPACE
  | SDLK_r (rand : Z -> Z)
  | SDLK_s
  | other_event.

(** What a frame gets from outside: the pending events, and the choices
    of the OpenMP run-time for the reduction and the two parallel loops. *)
Record frame_input := FrameInput {
  pending : list event;
  count_team : list (list Z);
  omp_chunks : list (Z * Z);
  omp_order : list (Z * Z);
  omp_copy_chunks : list (Z * Z);
  omp_copy_order : list (Z * Z)
}.

(** The local variables of [main] that the loop changes. *)
Record vstate := VState {
  cells : sim;
  parallel_on : bool;
  stats_on : bool;
  quit : bool;
  generation : Z;
  max_live_cells : Z;
  min_live_cells : Z;
  serial_generations : Z;
  parallel_generations : Z
}.

(** The body of [while (SDL_PollEvent(&e) != 0)]. *)
Definition handle_event (RAND_MAX : Z) (density : spec_float) (e : event) (st : vstate) : vstate :=
  match e with
  | SDL_QUIT | SDLK_ESCAPE =>
      VState (cells st) (parallel_on st) (stats_on st) true (generation st)
        (max_live_cells st) (min_live_cells st)
        (serial_generations st) (parallel_generations st)
  | SDLK_p =>
      VState (cells st) (negb (parallel_on st)) (stats_on st) (quit st) (generation st)
        (max_live_cells st) (min_live_cells st)
        (serial_generations st) (parallel_generations st)
  | SDLK_r rand =>
      VState (Sim (initialize_random_grid RAND_MAX rand density (grid (cells st)))
                  (next_grid (cells st)))
        (parallel_on st) (stats_on st) (quit st) (generation st)
        (max_live_cells st) (min_live_cells st)
        (serial_generations st) (parallel_generations st)
  | SDLK_s =>
      VState (cells st) (parallel_on st) (negb (stats_on st)) (quit st) (generation st)
        (max_live_cells st) (min_live_cells st)
        (serial_generations st) (parallel_generations st)
  | SDLK_SPACE | other_event => st
  end.

(** One turn of the main loop, without the drawing and the clock. *)
Definition frame (RAND_MAX : Z) (density : spec_float) (fi : frame_input) (st : vstate) : vstate :=
  let st := fold_left (fun st e => handle_event RAND_MAX density e st) (pending fi) st in
  let live_count := count_live_cells (count_team fi) (grid (cells st)) in
  let max_live := if live_count >? max_live_cells st then live_count else max_live_cells st in
  let min_live := if live_count <? min_live_cells st then live_count else min_live_cells st in
  let cells' := if parallel_on st
                then update_grid_parallel (omp_order fi) (omp_copy_order fi) (cells st)
                else update_grid_serial (cells st) in
  VState cells' (parallel_on st) (stats_on st) (quit st) (generation st + 1)
    max_live min_live
    (if parallel_on st then serial_generations st else serial_generations st + 1)
    (if parallel_on st then parallel_generations st + 1 else parallel_generations st).

(** [while (!quit && generation <= ITERATIONS) ...]; [inputs k] is what the
    [k]-th turn gets. *)
Fixpoint main_loop (fuel : nat) (RAND_MAX : Z) (density : spec_float)
    (inputs : nat -> frame_input) (k : nat) (st : vstate) : vstate :=
  match fuel with
  | O => st
  | S fuel' =>
      if negb (quit st) && (generation st <=? Z.of_nat ITERATIONS)
      then main_loop fuel' RAND_MAX density inputs (S k)
             (frame RAND_MAX density (inputs k) st)
      else st
  end.

(** The variables as [main] sets them before the loop. *)
Definition initial_state (g ng : Grid) (use_parallel show_stats : bool) : vstate :=
  VState (Sim g ng) use_parallel show_stats false 1 0 (GRID_SIZE * GRID_SIZE) 0 0.

(** The [switch (pattern_choice)] of [main]. *)
Definition initial_pattern (RAND_MAX : Z) (rand : Z -> Z) (o : options) (g : Grid) : Grid :=
  if pattern_choice o =? 1 then initialize_random_grid RAND_MAX rand (random_density o) g
  else if pattern_choice o =? 2 then initialize_glider_grid rand g
  else initialize_grid g.

(** ** Definitions used to state further results *)

(** The grid moved by [(dr, dc)] on the torus. *)
Definition shift (dr dc : Z) (g : Grid) : Grid :=
  tabulate (fun i j => get g (wrap (i - dr)) (wrap (j - dc))).

(** Two grids with the same ALIVE cells. *)
Definition same_mask (g1 g2 : Grid) : Prop :=
  forall i j, in_range i = true -> in_range j = true ->
    is_alive (get g1 i j) = is_alive (get g2 i j).

(** The cells the random loop of [initialize_glider_grid] stores into. *)
Definition random_picks (n : Z) (rand : Z -> Z) : list (Z * Z) :=
  map (fun i => (Z.rem (rand (2 * i)) GRID_SIZE, Z.rem (rand (2 * i + 1)) GRID_SIZE))
      (seqZ 0 n).

(** The test of [initialize_random_grid] for cell [(i, j)]. *)
Definition random_test (RAND_MAX : Z) (rand : Z -> Z) (density : spec_float) (i j : Z) : bool :=
  SFltb (SFdiv 24 128 (float_of_int (rand (i * GRID_SIZE + j))) (float_of_int RAND_MAX))
        density.

(** The centred block of [initialize_grid]. *)
Definition in_center (i j : Z) : bool :=
  (45 <=? i) && (i <? 55) && (45 <=? j) && (j <? 55).

(** The run-time's choices of a frame are executions of its loops. *)
Definition frame_ok (T : Z) (fi : frame_input) : Prop :=
  guided_execution T (omp_chunks fi) (omp_order fi) = true /\
  guided_execution T (omp_copy_chunks fi) (omp_copy_order fi) = true /\
  Permutation (concat (count_team fi)) rows.

Definition is_quit (e : event) : bool :=
  match e with
  | SDL_QUIT | SDLK_ESCAPE => true
  | _ => false
  end.

Definition is_reset (e : event) : bool :=
  match e with
  | SDLK_r _ => true
  | _ => false
  end.

(** A frame with nothing pending and one thread. *)
Definition quiet_frame : frame_input :=
  FrameInput [] [rows] [(0, GRID_SIZE)] all_cells [(0, GRID_SIZE)] all_cells.

(** Options [main] can work with: a density inside (0,1) and a pattern
    choice that the [switch] knows. *)
Definition sane (o : options) : Prop :=
  in_unit_interval (random_density o) = true /\
  (pattern_choice o = 0 \/ pattern_choice o = 1 \/ pattern_choice o = 2).

(** The bar of [print_simulation_info] as one reads it: [generation / 2]
    times '=', then '>' and blanks up to 50 characters; all '=' at 100. *)
Definition bar_text (generation : Z) : list ascii :=
  let p := Z.to_nat (generation * 50 / 100) in
  repeat "="%char p ++
  (if (p <? 50)%nat then ">"%char :: repeat " "%char (49 - p) else []).

(** * Properties *)

Section GridLemmas.

Lemma GRID_SIZE_eq : GRID_SIZE = 100.
Proof. reflexivity. Qed.

Lemma in_range_spec i : in_range i = true <-> 0 <= i < GRID_SIZE.
Proof. unfold in_range. rewrite andb_true_iff, Z.leb_le, Z.ltb_lt. tauto. Qed.

Lemma in_range_rows i : i ∈ rows <-> in_range i = true.
Proof.
  unfold rows. rewrite elem_of_seqZ, in_range_spec. lia.
Qed.

Lemma wf_set g i j v : wf g -> wf (set g i j v).
Proof.
  intros [Hl Hr]. unfold set.
  destruct (in_range i && in_range j); [|by split].
  destruct (g !! Z.to_nat i) as [r|] eqn:E; [|by split].
  split; [by rewrite length_insert|].
  apply Forall_insert; [done|]. rewrite length_insert.
  eapply Forall_lookup_1 in Hr; eauto.
Qed.

Lemma wf_row g i :
  wf g -> in_range i = true ->
  exists r, g !! Z.to_nat i = Some r /\ length r = Z.to_nat GRID_SIZE.
Proof.
  intros [Hl Hr] Hi. apply in_range_spec in Hi.
  destruct (lookup_lt_is_Some_2 g (Z.to_nat i)) as [r E]; [lia|].
  exists r. split; [done|]. eapply Forall_lookup_1 in Hr; eauto.
Qed.

Lemma get_set g i j v i' j' :
  wf g -> in_range i = true -> in_range j = true ->
  get (set g i j v) i' j' = if decide (i' = i /\ j' = j) then v else get g i' j'.
Proof.
  intros Hwf Hi Hj. destruct (wf_row g i Hwf Hi) as (r & Er & Lr).
  destruct Hwf as [Hl Hr].
  pose proof (proj1 (in_range_spec i) Hi). pose proof (proj1 (in_range_spec j) Hj).
  unfold get, set. rewrite Hi, Hj, Er. simpl.
  destruct (in_range i' && in_range j') eqn:R.
  - apply andb_true_iff in R as [Ri' Rj'].
    apply in_range_spec in Ri'. apply in_range_spec in Rj'.
    destruct (decide (i' = i)) as [->|Ni].
    + rewrite list_lookup_insert_eq by lia.
      destruct (decide (j' = j)) as [->|Nj].
      * rewrite list_lookup_insert_eq by lia.
        by rewrite decide_True.
      * rewrite list_lookup_insert_ne by lia. rewrite Er.
        rewrite decide_False by tauto. done.
    + rewrite list_lookup_insert_ne by lia.
      rewrite decide_False by tauto. done.
  - rewrite decide_False; [done|]. intros [-> ->]. by rewrite Hi, Hj in R.
Qed.

Lemma set_out_of_range g i j v :
  in_range i && in_range j = false -> set g i j v = g.
Proof. intros H. unfold set. by rewrite H. Qed.

(** Two well-formed grids with the same cells are the same grid. *)
Lemma grid_ext g1 g2 :
  wf g1 -> wf g2 ->
  (forall i j, in_range i = true -> in_range j = true -> get g1 i j = get g2 i j) ->
  g1 = g2.
Proof.
  intros [L1 R1] [L2 R2] H.
  apply list_eq_same_length with (Z.to_nat GRID_SIZE); [done..|].
  intros n r1 r2 Hn E1 E2.
  pose proof (Forall_lookup_1 _ _ _ _ R1 E1) as Lr1.
  pose proof (Forall_lookup_1 _ _ _ _ R2 E2) as Lr2.
  simpl in Lr1, Lr2.
  apply list_eq_same_length with (Z.to_nat GRID_SIZE); [done..|].
  intros m c1 c2 Hm F1 F2.
  assert (Ri : in_range (Z.of_nat n) = true) by (apply in_range_spec; lia).
  assert (Rj : in_range (Z.of_nat m) = true) by (apply in_range_spec; lia).
  specialize (H _ _ Ri Rj). unfold get in H. rewrite Ri, Rj in H. simpl in H.
  rewrite !Nat2Z.id, E1, E2, F1, F2 in H. done.
Qed.

Lemma length_rows : length rows = Z.to_nat GRID_SIZE.
Proof. unfold rows. by rewrite length_seqZ. Qed.

Lemma lookup_rows i : in_range i = true -> rows !! Z.to_nat i = Some i.
Proof.
  intros H. apply in_range_spec in H. unfold rows.
  rewrite lookup_seqZ. split; lia.
Qed.

Lemma wf_tabulate f : wf (tabulate f).
Proof.
  unfold tabulate. split.
  - by rewrite length_fmap, length_rows.
  - apply Forall_fmap, Forall_forall. intros i _. unfold compose.
    by rewrite length_fmap, length_rows.
Qed.

Lemma get_tabulate f i j :
  in_range i = true -> in_range j = true -> get (tabulate f) i j = f i j.
Proof.
  intros Hi Hj. unfold get, tabulate. rewrite Hi, Hj. cbn [andb].
  rewrite list_lookup_fmap, (lookup_rows i Hi). cbn [fmap option_fmap option_map].
  by rewrite list_lookup_fmap, (lookup_rows j Hj).
Qed.

Lemma wf_write_cells f order ng : wf ng -> wf (write_cells f order ng).
Proof.
  revert ng. induction order as [|p order IH]; intros ng H; [done|].
  simpl. apply IH. by apply wf_set.
Qed.

(** A cell of the written grid holds [f] of its coordinates as soon as
    one store of the sequence went to it, whatever the order. *)
Lemma get_write_cells f order ng i j :
  wf ng -> in_range i = true -> in_range j = true ->
  get (write_cells f order ng) i j =
    if decide ((i, j) ∈ order) then f i j else get ng i j.
Proof.
  revert ng. induction order as [|[a b] order IH]; intros ng Hwf Hi Hj.
  - unfold write_cells. cbn [fold_left].
    rewrite decide_False; [done|]. apply not_elem_of_nil.
  - change (write_cells f ((a, b) :: order) ng)
      with (write_cells f order (set ng a b (f a b))).
    rewrite IH by (try apply wf_set; done).
    destruct (decide ((i, j) ∈ order)) as [Hin|Hin].
    + rewrite decide_True; [done|]. by right.
    + destruct (in_range a && in_range b) eqn:R.
      * apply andb_true_iff in R as [Ra Rb]. rewrite get_set by done.
        destruct (decide (i = a /\ j = b)) as [[-> ->]|Hne].
        -- rewrite decide_True; [done|]. by left.
        -- rewrite decide_False; [done|].
           rewrite elem_of_cons. intros [[= -> ->]|?]; tauto.
      * rewrite set_out_of_range by done.
        rewrite decide_False; [done|].
        rewrite elem_of_cons. intros [[= -> ->]|?]; [|tauto].
        by rewrite Hi, Hj in R.
Qed.

Lemma in_all_cells i j :
  (i, j) ∈ all_cells <-> in_range i = true /\ in_range j = true.
Proof.
  unfold all_cells, row_cells. fold rows. rewrite list_elem_of_In, in_flat_map. split.
  - intros (a & Ha & Hp). apply in_map_iff in Hp as (b & [= <- <-] & Hb).
    rewrite <- !in_range_rows, !list_elem_of_In. done.
  - intros [Hi Hj]. exists i. rewrite <- !in_range_rows, !list_elem_of_In in *.
    split; [done|]. apply in_map_iff. eauto.
Qed.

(** Stores that reach every cell of the grid leave the table of [f]. *)
Lemma write_cells_all f order ng :
  wf ng ->
  (forall i j, in_range i = true -> in_range j = true -> (i, j) ∈ order) ->
  write_cells f order ng = tabulate f.
Proof.
  intros Hwf Hall. apply grid_ext; [by apply wf_write_cells|apply wf_tabulate|].
  intros i j Hi Hj. rewrite get_write_cells, get_tabulate by done.
  rewrite decide_True; [done|]. by apply Hall.
Qed.

Lemma nested_fold_write_cells f (l1 l2 : list Z) ng :
  fold_left (fun s i => fold_left (fun s j => set s i j (f i j)) l2 s) l1 ng
  = write_cells f (flat_map (fun i => map (pair i) l2) l1) ng.
Proof.
  unfold write_cells. revert ng.
  induction l1 as [|i l1 IH]; intros ng; [done|].
  cbn [flat_map fold_left]. rewrite fold_left_app, <- IH. f_equal.
  clear IH. revert ng.
  induction l2 as [|j l2 IH]; intros ng; [done|].
  cbn [map fold_left fst snd]. by rewrite IH.
Qed.

(** The nested [for] loops are the stores in row-major order. *)
Lemma nested_for_write_cells f ng :
  for_range 0 GRID_SIZE (fun i ng =>
    for_range 0 GRID_SIZE (fun j ng => set ng i j (f i j)) ng) ng
  = write_cells f all_cells ng.
Proof.
  unfold for_range. rewrite Z.sub_0_r. apply nested_fold_write_cells.
Qed.

Lemma compute_next_step g ng : wf ng -> compute_next g ng = step g.
Proof.
  intros H. unfold compute_next, step. rewrite nested_for_write_cells.
  apply write_cells_all; [done|]. intros. by apply in_all_cells.
Qed.

Lemma copy_back_eq g ng : wf g -> wf ng -> copy_back g ng = ng.
Proof.
  intros Hg Hng. unfold copy_back. rewrite nested_for_write_cells.
  rewrite write_cells_all; [|done|intros; by apply in_all_cells].
  apply grid_ext; [apply wf_tabulate|done|].
  intros. by rewrite get_tabulate.
Qed.

Lemma wf_step g : wf (step g).
Proof. apply wf_tabulate. Qed.

Lemma get_step g i j :
  in_range i = true -> in_range j = true -> get (step g) i j = next_cell g i j.
Proof. apply get_tabulate. Qed.

End GridLemmas.

Create HintDb shape.
#[export] Hint Resolve wf_set wf_tabulate wf_step wf_write_cells : shape.

(** ** One generation of every variant is [step] *)

Section Generations.

Lemma serial_generation_step st :
  wf (next_grid st) -> serial_generation st = Sim (step (grid st)) (step (grid st)).
Proof.
  intros H. unfold serial_generation, memcpy_grid. cbv zeta.
  rewrite (compute_next_step (grid st) (next_grid st) H). reflexivity.
Qed.

Lemma update_grid_serial_step st :
  wf (grid st) -> wf (next_grid st) ->
  update_grid_serial st = Sim (step (grid st)) (step (grid st)).
Proof.
  intros Hg H. unfold update_grid_serial. cbv zeta.
  rewrite (compute_next_step (grid st) (next_grid st) H).
  rewrite (copy_back_eq (grid st) (step (grid st)) Hg (wf_step _)).
  reflexivity.
Qed.

Lemma compute_next_parallel_step order g ng :
  wf ng -> complete order -> compute_next_parallel order g ng = step g.
Proof. intros. by apply write_cells_all. Qed.

Lemma parallel_generation_step order st :
  wf (next_grid st) -> complete order ->
  parallel_generation order st = Sim (step (grid st)) (step (grid st)).
Proof.
  intros H Hc. unfold parallel_generation, omp_critical, memcpy_grid.
  by rewrite compute_next_parallel_step.
Qed.

Lemma parallel_generation_no_critical_step order st :
  wf (next_grid st) -> complete order ->
  parallel_generation_no_critical order st = Sim (step (grid st)) (step (grid st)).
Proof.
  intros H Hc. unfold parallel_generation_no_critical, memcpy_grid.
  by rewrite compute_next_parallel_step.
Qed.

Lemma update_grid_parallel_step order copy_order st :
  wf (grid st) -> wf (next_grid st) -> complete order -> complete copy_order ->
  update_grid_parallel order copy_order st = Sim (step (grid st)) (step (grid st)).
Proof.
  intros Hg H Hc Hc'. unfold update_grid_parallel.
  rewrite compute_next_parallel_step by done. f_equal.
  rewrite write_cells_all by done.
  apply grid_ext; [apply wf_tabulate|apply wf_step|].
  intros. by rewrite get_tabulate.
Qed.

(** Iterating a generation that is [step] on well-formed grids. *)
Lemma generations_step gen n st :
  wf (grid st) -> wf (next_grid st) ->
  (forall iter st', (iter < n)%nat -> wf (grid st') -> wf (next_grid st') ->
     gen iter st' = Sim (step (grid st')) (step (grid st'))) ->
  grid (generations gen n st) = Nat.iter n step (grid st) /\
  wf (grid (generations gen n st)) /\ wf (next_grid (generations gen n st)) /\
  ((0 < n)%nat -> next_grid (generations gen n st) = grid (generations gen n st)).
Proof.
  intros Hg Hs. induction n as [|n IH]; intros Hgen.
  - cbn. split_and!; try done. intros; lia.
  - destruct IH as (E & W1 & W2 & _); [intros; apply Hgen; (lia || done)|].
    cbn [generations]. rewrite Nat.iter_succ, Hgen by (lia || done).
    cbn [grid next_grid]. rewrite E. split_and!; try done; rewrite <- E; apply wf_step.
Qed.

Lemma iter_generations (f : sim -> sim) n st :
  Nat.iter n f st = generations (fun _ => f) n st.
Proof.
  induction n as [|n IH]; [done|].
  rewrite Nat.iter_succ, IH. done.
Qed.

End Generations.

(** ** The neighbour counter *)

Section Neighbors.

Lemma rem_wrap row d :
  0 <= row < GRID_SIZE -> -1 <= d <= 1 ->
  Z.rem (row + d + GRID_SIZE) GRID_SIZE = wrap (row + d).
Proof.
  intros Hr Hd. unfold wrap. unfold GRID_SIZE in *.
  rewrite Z.rem_mod_nonneg by lia.
  replace (row + d + 100) with (row + d + 1 * 100) by lia.
  by rewrite Z.mod_add by lia.
Qed.

Lemma rem_same row :
  0 <= row < GRID_SIZE -> Z.rem (row + 0 + GRID_SIZE) GRID_SIZE = row.
Proof.
  intros Hr. rewrite rem_wrap by lia. unfold wrap.
  rewrite Z.add_0_r. apply Z.mod_small. lia.
Qed.

Lemma wrap_pred row :
  0 <= row < GRID_SIZE ->
  wrap (row - 1) = if row =? 0 then GRID_SIZE - 1 else row - 1.
Proof.
  intros Hr. unfold wrap. unfold GRID_SIZE in *.
  destruct (row =? 0) eqn:E.
  - apply Z.eqb_eq in E. subst. reflexivity.
  - apply Z.eqb_neq in E. apply Z.mod_small. lia.
Qed.

Lemma wrap_succ row :
  0 <= row < GRID_SIZE ->
  wrap (row + 1) = if row =? GRID_SIZE - 1 then 0 else row + 1.
Proof.
  intros Hr. unfold wrap. unfold GRID_SIZE in *.
  destruct (row =? 100 - 1) eqn:E.
  - apply Z.eqb_eq in E. subst. reflexivity.
  - apply Z.eqb_neq in E. apply Z.mod_small. lia.
Qed.

Lemma wrap_range i : in_range (wrap i) = true.
Proof.
  apply in_range_spec. unfold wrap.
  apply Z.mod_pos_bound. unfold GRID_SIZE. lia.
Qed.

(** On a grid of at least three rows the row above, the row itself and
    the row below are three different rows. *)
Lemma wrap_distinct row :
  0 <= row < GRID_SIZE ->
  wrap (row - 1) <> row /\ wrap (row + 1) <> row /\ wrap (row - 1) <> wrap (row + 1).
Proof.
  intros Hr. rewrite wrap_pred, wrap_succ by done. unfold GRID_SIZE in *.
  destruct (row =? 0) eqn:E1; destruct (row =? 100 - 1) eqn:E2; lia.
Qed.

(** The loops of [count_neighbors], unrolled: one term per neighbour. *)
Lemma count_neighbors_sum g row col :
  let a d e := Z.b2z (is_alive (get g (Z.rem (row + d + GRID_SIZE) GRID_SIZE)
                                      (Z.rem (col + e + GRID_SIZE) GRID_SIZE))) in
  count_neighbors g row col =
    a (-1) (-1) + a (-1) 0 + a (-1) 1 + a 0 (-1) + a 0 1 + a 1 (-1) + a 1 0 + a 1 1.
Proof.
  intros a. subst a. unfold count_neighbors, for_range.
  change (seqZ (-1) (2 - -1)) with [-1; 0; 1].
  cbn [fold_left Z.eqb andb Pos.eqb]. cbv beta.
  repeat match goal with
  | |- context [is_alive ?c] => generalize (is_alive c); intros ?b
  end.
  repeat match goal with b : bool |- _ => destruct b end; reflexivity.
Qed.

Lemma count_alive_cons g p cells :
  count_alive g (p :: cells) =
    Z.b2z (is_alive (get g (fst p) (snd p))) + count_alive g cells.
Proof.
  unfold count_alive. cbn [List.filter].
  destruct (is_alive (get g (fst p) (snd p))); cbn [length Z.b2z]; lia.
Qed.

Lemma count_neighbors_count_alive g row col :
  0 <= row < GRID_SIZE -> 0 <= col < GRID_SIZE ->
  count_neighbors g row col = count_alive g (moore_neighbors row col).
Proof.
  intros Hr Hc. rewrite count_neighbors_sum. cbv zeta. unfold moore_neighbors.
  rewrite !count_alive_cons. cbn [fst snd].
  rewrite !rem_same by done.
  rewrite !(rem_wrap row), !(rem_wrap col) by lia.
  replace (row + -1) with (row - 1) by lia.
  replace (col + -1) with (col - 1) by lia.
  unfold count_alive. cbn [List.filter length]. lia.
Qed.

Lemma count_alive_bounds g cells :
  0 <= count_alive g cells <= Z.of_nat (length cells).
Proof.
  unfold count_alive. pose proof (filter_length_le
    (fun p => is_alive (get g (fst p) (snd p))) cells). lia.
Qed.

Lemma moore_neighbors_NoDup row col :
  0 <= row < GRID_SIZE -> 0 <= col < GRID_SIZE ->
  NoDup (moore_neighbors row col) /\ (row, col) ∉ moore_neighbors row col.
Proof.
  intros Hr Hc. unfold moore_neighbors.
  destruct (wrap_distinct row Hr) as (R1 & R2 & R3).
  destruct (wrap_distinct col Hc) as (C1 & C2 & C3).
  generalize dependent (wrap (row - 1)). generalize dependent (wrap (row + 1)).
  generalize dependent (wrap (col - 1)). generalize dependent (wrap (col + 1)).
  intros. rewrite !NoDup_cons, !not_elem_of_cons.
  split_and!; try apply NoDup_nil_2; try apply not_elem_of_nil;
    intros [= ]; congruence.
Qed.

Lemma moore_neighbors_in_range row col p :
  0 <= row < GRID_SIZE -> 0 <= col < GRID_SIZE ->
  p ∈ moore_neighbors row col ->
  in_range (fst p) = true /\ in_range (snd p) = true.
Proof.
  intros Hr Hc Hp.
  assert (Ri : in_range row = true) by (by apply in_range_spec).
  assert (Rj : in_range col = true) by (by apply in_range_spec).
  unfold moore_neighbors in Hp.
  repeat (apply elem_of_cons in Hp as [-> | Hp]);
    [..|by apply elem_of_nil in Hp]; cbn [fst snd];
    split; (done || apply wrap_range).
Qed.

(** The wrap-around seen on the code: a single ALIVE cell in a far corner
    or on a far edge is a neighbour of the cell (0,0). *)
Example corner_sees_far_cells :
  count_neighbors (set dead_grid 99 99 ALIVE) 0 0 = 1 /\
  count_neighbors (set dead_grid 99 0 ALIVE) 0 0 = 1 /\
  count_neighbors (set dead_grid 0 99 ALIVE) 0 0 = 1 /\
  count_neighbors (set dead_grid 0 0 ALIVE) 0 0 = 0 /\
  count_neighbors (set dead_grid 50 50 ALIVE) 0 0 = 0.
Proof. vm_compute. auto. Qed.

End Neighbors.

(** C3: for every grid and every [row], [col] in [0, N) the neighbour
    counter returns the number, between 0 and 8, of ALIVE cells among the
    8 toroidally wrapped Moore neighbours: 8 different cells of the grid,
    none of them the cell itself, whether the cell is on an edge, in a
    corner or inside; the neighbours of the corner (0,0) include
    (N-1,N-1), (N-1,0) and (0,N-1). *)
Theorem count_neighbors_torus (g : Grid) (row col : Z) :
  0 <= row < GRID_SIZE -> 0 <= col < GRID_SIZE ->
  count_neighbors g row col = count_alive g (moore_neighbors row col) /\
  0 <= count_neighbors g row col <= 8 /\
  length (moore_neighbors row col) = 8%nat /\
  NoDup (moore_neighbors row col) /\
  ((row, col) ∉ moore_neighbors row col) /\
  (forall p, p ∈ moore_neighbors row col ->
     in_range (fst p) = true /\ in_range (snd p) = true) /\
  ((GRID_SIZE - 1, GRID_SIZE - 1) ∈ moore_neighbors 0 0) /\
  ((GRID_SIZE - 1, 0) ∈ moore_neighbors 0 0) /\
  ((0, GRID_SIZE - 1) ∈ moore_neighbors 0 0).
Proof.
  intros Hr Hc.
  pose proof (count_neighbors_count_alive g row col Hr Hc) as E.
  pose proof (count_alive_bounds g (moore_neighbors row col)) as B.
  destruct (moore_neighbors_NoDup row col Hr Hc) as [ND NI].
  split_and!; try done.
  - rewrite E. cbn [moore_neighbors length] in B. lia.
  - rewrite E. cbn [moore_neighbors length] in B. lia.
  - intros p Hp. by apply (moore_neighbors_in_range row col).
  - apply list_elem_of_In. vm_compute. auto 10.
  - apply list_elem_of_In. vm_compute. auto 10.
  - apply list_elem_of_In. vm_compute. auto 10.
Qed.

Lemma count_neighbors_torus_witness :
  count_neighbors dead_grid 0 0 = count_alive dead_grid (moore_neighbors 0 0).
Proof.
  apply (count_neighbors_torus dead_grid 0 0); unfold GRID_SIZE; lia.
Defined.

(** ** Executions of the parallel loop reach every cell *)

Section Executions.

Lemma take_head_covers x0 ts ts' :
  take_head x0 ts = Some ts' ->
  forall x t, In t ts -> In x t -> x = x0 \/ exists t', In t' ts' /\ In x t'.
Proof.
  revert ts'. induction ts as [|t0 ts IH]; intros ts' H x t Ht Hx; [done|].
  assert (Hrest : forall ts1, take_head x0 ts = Some ts1 -> In t ts ->
            x = x0 \/ exists t', In t' (t0 :: ts1) /\ In x t').
  { intros ts1 E Hin. destruct (IH ts1 E x t Hin Hx) as [->|(t' & H1 & H2)].
    - by left.
    - right. exists t'. split; [by right|done]. }
  assert (Hhere : forall ts1, t = t0 -> x = x0 \/ exists t', In t' (t0 :: ts1) /\ In x t').
  { intros ts1 ->. right. exists t0. split; [by left|done]. }
  cbn [take_head] in H. destruct t0 as [|y t0'].
  - destruct (take_head x0 ts) as [ts1|] eqn:E; [|done].
    injection H as <-. destruct Ht as [<-|Ht]; [done|]. by apply Hrest.
  - destruct ((fst x0 =? fst y) && (snd x0 =? snd y)) eqn:B.
    + injection H as <-. apply andb_true_iff in B as [B1 B2].
      apply Z.eqb_eq in B1. apply Z.eqb_eq in B2.
      assert (x0 = y) as -> by (destruct x0, y; cbn in *; congruence).
      destruct Ht as [<-|Ht].
      * destruct Hx as [->|Hx]; [by left|].
        right. exists t0'. split; [by left|done].
      * right. exists t. split; [by right|done].
    + destruct (take_head x0 ts) as [ts1|] eqn:E; [|done].
      injection H as <-. destruct Ht as [<-|Ht]; [by apply Hhere|]. by apply Hrest.
Qed.

(** Every store of every thread occurs in an interleaving. *)
Lemma interleaves_covers ts order :
  interleaves ts order = true ->
  forall x t, In t ts -> In x t -> In x order.
Proof.
  revert ts. induction order as [|x0 order IH]; intros ts H x t Ht Hx.
  - cbn [interleaves] in H. rewrite forallb_forall in H.
    specialize (H t Ht). by destruct t.
  - cbn [interleaves] in H. destruct (take_head x0 ts) as [ts'|] eqn:E; [|done].
    destruct (take_head_covers _ _ _ E x t Ht Hx) as [->|(t' & H1 & H2)].
    + by left.
    + right. by eapply IH.
Qed.

Lemma in_thread_stores i j rs :
  In i rs -> in_range j = true -> In (i, j) (thread_stores rs).
Proof.
  intros Hi Hj. unfold thread_stores, row_cells. apply in_flat_map.
  exists i. split; [done|]. apply in_map.
  apply list_elem_of_In. by apply in_range_rows.
Qed.

Lemma static_schedule_covers T i :
  1 <= T -> in_range i = true -> exists rs, In rs (static_schedule T) /\ In i rs.
Proof.
  intros HT Hi. pose proof (proj1 (in_range_spec i) Hi) as Ri.
  exists (List.filter (fun i' => Z.rem i' T =? Z.rem i T) (seqZ 0 GRID_SIZE)). split.
  - unfold static_schedule. apply in_map_iff. exists (Z.rem i T). split; [done|].
    apply list_elem_of_In, elem_of_seqZ.
    pose proof (Z.rem_bound_pos i T). lia.
  - apply filter_In. split; [|by apply Z.eqb_eq].
    apply list_elem_of_In. by apply in_range_rows.
Qed.

Lemma deal_covers T chunks start i :
  forallb (fun c => (0 <=? fst c) && (fst c <? T) && (1 <=? snd c)) chunks = true ->
  start <= i < start + fold_right Z.add 0 (map snd chunks) ->
  exists t, 0 <= t < T /\ In i (deal start chunks t).
Proof.
  revert start. induction chunks as [|[owner size] chunks IH]; intros start Hv Hi.
  - cbn in Hi. lia.
  - cbn [forallb fst snd] in Hv. apply andb_true_iff in Hv as [Hc Hv].
    apply andb_true_iff in Hc as [Hc H1]. apply andb_true_iff in Hc as [H2 H3].
    cbn [map fold_right snd] in Hi. cbn [deal].
    destruct (decide (i < start + size)) as [Hlt|Hge].
    + exists owner. split; [lia|]. rewrite Z.eqb_refl. apply in_or_app. left.
      apply list_elem_of_In, elem_of_seqZ. lia.
    + destruct (IH (start + size) Hv) as (t & Ht & Hin); [lia|].
      exists t. split; [done|]. apply in_or_app. by right.
Qed.

Lemma guided_schedule_covers T chunks i :
  valid_chunks T chunks = true -> in_range i = true ->
  exists rs, In rs (guided_schedule T chunks) /\ In i rs.
Proof.
  intros Hv Hi. apply in_range_spec in Hi.
  unfold valid_chunks in Hv. apply andb_true_iff in Hv as [Hv Hs].
  apply Z.eqb_eq in Hs.
  destruct (deal_covers T chunks 0 i Hv) as (t & Ht & Hin); [lia|].
  exists (deal 0 chunks t). split; [|done].
  unfold guided_schedule. apply in_map. apply list_elem_of_In, elem_of_seqZ. lia.
Qed.

Lemma static_execution_complete T order :
  static_execution T order = true -> complete order.
Proof.
  unfold static_execution. intros H. apply andb_true_iff in H as [HT H].
  intros i j Hi Hj. apply list_elem_of_In.
  destruct (static_schedule_covers T i) as (rs & Hrs & Hin); [lia|done|].
  eapply interleaves_covers; [done| |by apply in_thread_stores].
  by apply in_map.
Qed.

Lemma guided_execution_complete T chunks order :
  guided_execution T chunks order = true -> complete order.
Proof.
  unfold guided_execution. intros H. apply andb_true_iff in H as [H Hi].
  apply andb_true_iff in H as [HT Hv].
  intros i j Ri Rj. apply list_elem_of_In.
  destruct (guided_schedule_covers T chunks i) as (rs & Hrs & Hin); [done..|].
  eapply interleaves_covers; [done| |by apply in_thread_stores].
  by apply in_map.
Qed.

Lemma all_cells_complete : complete all_cells.
Proof. intros i j Hi Hj. by apply in_all_cells. Qed.

End Executions.

(** ** Every variant computes the iterated [step] *)

Section Runs.

Lemma run_step v n st :
  admissible v -> wf (grid st) -> wf (next_grid st) ->
  grid (run v n st) = Nat.iter n step (grid st) /\
  wf (grid (run v n st)) /\ wf (next_grid (run v n st)) /\
  ((0 < n)%nat -> next_grid (run v n st) = grid (run v n st)).
Proof.
  intros Ha Hg Hs. destruct v; cbn [run admissible] in *;
    unfold simulate_serial_iters, simulate_parallel_static_iters,
      simulate_parallel_guided_iters, simulate_parallel_static_no_critical_iters,
      simulate_parallel_guided_no_critical_iters;
    rewrite ?iter_generations;
    (apply generations_step; [exact Hg|exact Hs|]); intros iter st' _ W1 W2.
  - apply serial_generation_step. exact W2.
  - apply parallel_generation_step; [exact W2|].
    apply (static_execution_complete T). apply Ha.
  - apply parallel_generation_step; [exact W2|].
    apply (guided_execution_complete T (chunks iter)). apply Ha.
  - apply parallel_generation_no_critical_step; [exact W2|].
    apply (static_execution_complete T). apply Ha.
  - apply parallel_generation_no_critical_step; [exact W2|].
    apply (guided_execution_complete T (chunks iter)). apply Ha.
  - apply update_grid_serial_step; [exact W1|exact W2].
  - destruct (Ha iter) as [H1 H2].
    apply update_grid_parallel_step; [exact W1|exact W2| |].
    + apply (guided_execution_complete T (chunks iter)). exact H1.
    + apply (guided_execution_complete T (copy_chunks iter)). exact H2.
Qed.

Lemma run_grid v n g s :
  admissible v -> wf g -> wf s -> grid (run v n (Sim g s)) = Nat.iter n step g.
Proof. intros Ha Hg Hs. apply (run_step v n (Sim g s) Ha Hg Hs). Qed.

Lemma iter_fixed {A} (f : A -> A) x n : f x = x -> Nat.iter n f x = x.
Proof.
  intros H. induction n as [|n IH]; [done|]. by rewrite Nat.iter_succ, IH.
Qed.

End Runs.

(** ** The transition table *)

Lemma apply_rules_table (n : Z) :
  apply_rules ALIVE n = (if (n =? 2) || (n =? 3) then ALIVE else DEAD) /\
  apply_rules DEAD n = (if n =? 3 then ALIVE else DEAD).
Proof.
  unfold apply_rules.
  change (is_alive ALIVE) with true. change (is_alive DEAD) with false. cbv iota.
  split; [|reflexivity].
  destruct (Z.ltb_spec n 2), (Z.gtb_spec n 3), (Z.eqb_spec n 2), (Z.eqb_spec n 3);
    cbn [orb]; (reflexivity || lia).
Qed.

(** C1: for a cell ALIVE or DEAD and a neighbour count [n] in 0..8, the
    transition that every update variant applies to a cell gives ALIVE for
    an ALIVE cell with 2 or 3 neighbours, DEAD for an ALIVE cell with fewer
    than 2 or more than 3, ALIVE for a DEAD cell with exactly 3, and DEAD
    for a DEAD cell otherwise; one generation of any variant puts into
    each cell the transition of its old state and its neighbour count. *)
Theorem transition_table (n : Z) :
  0 <= n <= 8 ->
  (n = 2 \/ n = 3 -> apply_rules ALIVE n = ALIVE) /\
  (n < 2 \/ n > 3 -> apply_rules ALIVE n = DEAD) /\
  (n = 3 -> apply_rules DEAD n = ALIVE) /\
  (n <> 3 -> apply_rules DEAD n = DEAD) /\
  (forall (v : variant) (g scratch : Grid) (i j : Z),
     admissible v -> wf g -> wf scratch ->
     in_range i = true -> in_range j = true ->
     get (grid (run v 1 (Sim g scratch))) i j
       = apply_rules (get g i j) (count_neighbors g i j)).
Proof.
  intros Hn. destruct (apply_rules_table n) as [EA ED]. rewrite EA, ED.
  split_and!.
  - intros [-> | ->]; reflexivity.
  - intros H. destruct (Z.eqb_spec n 2), (Z.eqb_spec n 3); cbn [orb]; (reflexivity || lia).
  - intros ->. reflexivity.
  - intros H. destruct (Z.eqb_spec n 3); [lia|reflexivity].
  - intros v g scratch i j Ha Hg Hs Hi Hj.
    rewrite (run_grid v 1 g scratch Ha Hg Hs).
    change (Nat.iter 1 step g) with (step g). by apply get_step.
Qed.

Lemma transition_table_witness :
  apply_rules ALIVE 3 = ALIVE /\ apply_rules ALIVE 4 = DEAD /\
  apply_rules DEAD 3 = ALIVE /\ apply_rules DEAD 2 = DEAD.
Proof.
  split_and!.
  - apply (transition_table 3); lia.
  - apply (transition_table 4); lia.
  - apply (transition_table 3); lia.
  - apply (transition_table 2); lia.
Defined.

(** ** The empty grid and the 2x2 block *)

Section StillLifes.

Lemma wf_dead_grid : wf dead_grid.
Proof. apply wf_tabulate. Qed.

Lemma get_dead_grid i j :
  in_range i = true -> in_range j = true -> get dead_grid i j = DEAD.
Proof. apply (get_tabulate (fun _ _ => DEAD)). Qed.

Lemma count_alive_dead_grid cells :
  Forall (fun p => in_range (fst p) = true /\ in_range (snd p) = true) cells ->
  count_alive dead_grid cells = 0.
Proof.
  induction 1 as [|p cells [H1 H2] _ IH]; [done|].
  rewrite count_alive_cons, IH, get_dead_grid by done. reflexivity.
Qed.

Lemma step_dead_grid : step dead_grid = dead_grid.
Proof.
  apply grid_ext; [apply wf_step|apply wf_dead_grid|].
  intros i j Hi Hj. rewrite get_step, get_dead_grid by done.
  unfold next_cell. rewrite get_dead_grid by done.
  pose proof (proj1 (in_range_spec i) Hi) as Ri.
  pose proof (proj1 (in_range_spec j) Hj) as Rj.
  rewrite (count_neighbors_count_alive dead_grid i j Ri Rj).
  rewrite count_alive_dead_grid; [reflexivity|].
  apply Forall_forall. intros p Hp. by apply (moore_neighbors_in_range i j).
Qed.

(** The rows of a block seen from row [i]: the row above, [i] itself and
    the row below.  A block row has exactly one block row next to it, and
    any other row has at most one. *)
Lemma block_rows r i :
  0 <= r < GRID_SIZE -> 0 <= i < GRID_SIZE ->
  let b x := (x =? r) || (x =? wrap (r + 1)) in
  (b i = true -> b (wrap (i - 1)) = negb (b (wrap (i + 1)))) /\
  (b i = false -> b (wrap (i - 1)) && b (wrap (i + 1)) = false).
Proof.
  intros Hr Hi b. subst b. cbv beta.
  rewrite (wrap_succ r), (wrap_succ i), (wrap_pred i) by done.
  unfold GRID_SIZE in *.
  destruct (r =? 100 - 1) eqn:E1; destruct (i =? 100 - 1) eqn:E2;
    destruct (i =? 0) eqn:E3;
    repeat match goal with
    | |- context [?x =? ?y] => destruct (Z.eqb_spec x y)
    end; cbn; split; intros; try reflexivity; try discriminate; lia.
Qed.

Section Block.

Variables (r c : Z) (g : Grid).
Hypothesis Hblock : is_block_grid r c g.

(** Every cell of a block has 3 ALIVE neighbours; a DEAD cell next to the
    block has 1, 2 or 4 (never 3); so nothing changes. *)
Lemma step_block : step g = g.
Proof.
  destruct Hblock as (Hwf & Hr & Hc & Hg).
  apply grid_ext; [apply wf_step|done|].
  intros i j Hi Hj. rewrite get_step by done. unfold next_cell.
  pose proof (proj1 (in_range_spec i) Hi) as Ri.
  pose proof (proj1 (in_range_spec j) Hj) as Rj.
  pose proof (proj1 (in_range_spec r) Hr) as Rr.
  pose proof (proj1 (in_range_spec c) Hc) as Rc.
  rewrite (count_neighbors_count_alive g i j Ri Rj).
  unfold moore_neighbors. rewrite !count_alive_cons. cbn [fst snd].
  rewrite !Hg by (done || apply wrap_range).
  unfold count_alive. cbn [List.filter length]. unfold in_block.
  destruct (block_rows r i Rr Ri) as [A1 A2].
  destruct (block_rows c j Rc Rj) as [B1 B2]. cbv zeta beta in A1, A2, B1, B2.
  destruct ((i =? r) || (i =? wrap (r + 1)));
    destruct ((wrap (i - 1) =? r) || (wrap (i - 1) =? wrap (r + 1)));
    destruct ((wrap (i + 1) =? r) || (wrap (i + 1) =? wrap (r + 1)));
    try (by specialize (A1 eq_refl)); try (by specialize (A2 eq_refl));
    destruct ((j =? c) || (j =? wrap (c + 1)));
    destruct ((wrap (j - 1) =? c) || (wrap (j - 1) =? wrap (c + 1)));
    destruct ((wrap (j + 1) =? c) || (wrap (j + 1) =? wrap (c + 1)));
    try (by specialize (B1 eq_refl)); try (by specialize (B2 eq_refl));
    reflexivity.
Qed.

End Block.

End StillLifes.

(** C6: the grid with every cell DEAD stays so: every update variant, run
    for any number [k] of generations on it, leaves every cell DEAD. *)
Theorem dead_grid_preserved (v : variant) (k : nat) (scratch : Grid) :
  admissible v -> wf scratch ->
  grid (run v k (Sim dead_grid scratch)) = dead_grid /\
  forall i j, in_range i = true -> in_range j = true ->
    get (grid (run v k (Sim dead_grid scratch))) i j = DEAD.
Proof.
  intros Ha Hs.
  assert (E : grid (run v k (Sim dead_grid scratch)) = dead_grid).
  { rewrite run_grid by (done || apply wf_dead_grid).
    apply iter_fixed, step_dead_grid. }
  split; [exact E|]. intros i j Hi Hj. rewrite E. by apply get_dead_grid.
Qed.

(** C5: a grid that holds one 2x2 block of ALIVE cells and only DEAD cells
    elsewhere is a fixed point: the serial update applied any number [k]
    of times returns the same grid. *)
Theorem block_still_life (r c : Z) (g scratch : Grid) (k : nat) :
  is_block_grid r c g -> wf scratch ->
  grid (Nat.iter k update_grid_serial (Sim g scratch)) = g /\
  grid (simulate_serial_iters k (Sim g scratch)) = g.
Proof.
  intros Hb Hs. pose proof Hb as (Hwf & _).
  split.
  - pose proof (run_grid VisualSerial k g scratch I Hwf Hs) as E.
    cbn [run] in E. rewrite E.
    apply iter_fixed. by apply (step_block r c).
  - pose proof (run_grid Serial k g scratch I Hwf Hs) as E.
    cbn [run] in E. rewrite E.
    apply iter_fixed. by apply (step_block r c).
Qed.

Lemma dead_grid_preserved_witness :
  grid (run (ParallelStatic 4 (fun _ => sample_static_order)) 3
          (Sim dead_grid junk_grid)) = dead_grid.
Proof.
  assert (Ha : admissible (ParallelStatic 4 (fun _ => sample_static_order))).
  { intros iter. vm_compute. reflexivity. }
  exact (proj1 (dead_grid_preserved _ 3 junk_grid Ha (wf_tabulate _))).
Defined.

Lemma block_still_life_witness :
  let g := tabulate (fun i j => if in_block 99 99 i j then ALIVE else DEAD) in
  grid (Nat.iter 7 update_grid_serial (Sim g junk_grid)) = g.
Proof.
  intros g.
  assert (Hb : is_block_grid 99 99 g).
  { split_and!; [apply wf_tabulate|reflexivity|reflexivity|].
    intros i j Hi Hj. unfold g. apply get_tabulate; assumption. }
  exact (proj1 (block_still_life 99 99 g junk_grid 7 Hb (wf_tabulate _))).
Defined.

(** ** The parallel variants against the serial one *)

(** C2: with nobody else reading the grid, the static and the guided
    simulation, with and without the critical section, each leave the
    final grid of the serial simulation after the 100 generations,
    whatever the initial grid, the contents of the scratch grids, the
    number of threads and the way the run-time executes the loops. *)
Theorem parallel_equals_serial (g s0 s1 s2 s3 s4 : Grid) (T : Z)
    (static_orders guided_orders static_nc_orders guided_nc_orders : nat -> list (Z * Z))
    (chunks nc_chunks : nat -> list (Z * Z)) :
  wf g -> wf s0 -> wf s1 -> wf s2 -> wf s3 -> wf s4 ->
  (forall iter, static_execution T (static_orders iter) = true) ->
  (forall iter, guided_execution T (chunks iter) (guided_orders iter) = true) ->
  (forall iter, static_execution T (static_nc_orders iter) = true) ->
  (forall iter, guided_execution T (nc_chunks iter) (guided_nc_orders iter) = true) ->
  let final := grid (simulate_serial (Sim g s0)) in
  grid (simulate_parallel_static static_orders (Sim g s1)) = final /\
  grid (simulate_parallel_guided guided_orders (Sim g s2)) = final /\
  grid (simulate_parallel_static_no_critical static_nc_orders (Sim g s3)) = final /\
  grid (simulate_parallel_guided_no_critical guided_nc_orders (Sim g s4)) = final.
Proof.
  intros Hg H0 H1 H2 H3 H4 E1 E2 E3 E4 final.
  assert (F : final = Nat.iter ITERATIONS step g).
  { apply (run_grid Serial ITERATIONS g s0 I Hg H0). }
  rewrite F. split_and!.
  - apply (run_grid (ParallelStatic T static_orders) ITERATIONS g s1 E1 Hg H1).
  - apply (run_grid (ParallelGuided T chunks guided_orders) ITERATIONS g s2 E2 Hg H2).
  - apply (run_grid (ParallelStaticNoCritical T static_nc_orders) ITERATIONS g s3 E3 Hg H3).
  - apply (run_grid (ParallelGuidedNoCritical T nc_chunks guided_nc_orders)
             ITERATIONS g s4 E4 Hg H4).
Qed.

Lemma wf_junk_grid : wf junk_grid.
Proof. apply wf_tabulate. Qed.

Lemma sample_static_execution : static_execution 4 sample_static_order = true.
Proof. vm_compute. reflexivity. Qed.

Example lock_step_execution : static_execution 4 lock_step_order = true.
Proof. vm_compute. reflexivity. Qed.

(** Not every order of the stores is an execution: no thread starts with
    the last cell of the grid. *)
Example reversed_not_execution : static_execution 4 (rev all_cells) = false.
Proof. vm_compute. reflexivity. Qed.

Lemma sample_guided_execution :
  guided_execution 4 sample_chunks sample_guided_order = true.
Proof. vm_compute. reflexivity. Qed.

Lemma parallel_equals_serial_witness :
  let g := tabulate (fun i j => if in_block 40 40 i j || in_block 41 42 i j
                                then ALIVE else DEAD) in
  grid (simulate_parallel_static (fun _ => lock_step_order) (Sim g junk_grid))
    = grid (simulate_serial (Sim g dead_grid)) /\
  grid (simulate_parallel_guided_no_critical (fun _ => sample_guided_order) (Sim g junk_grid))
    = grid (simulate_serial (Sim g dead_grid)).
Proof.
  intros g.
  destruct (parallel_equals_serial g dead_grid junk_grid junk_grid junk_grid junk_grid 4
    (fun _ => lock_step_order) (fun _ => sample_guided_order)
    (fun _ => all_cells) (fun _ => sample_guided_order)
    (fun _ => sample_chunks) (fun _ => sample_chunks)) as (R1 & _ & _ & R4);
    try apply wf_tabulate; try (intros iter; vm_compute; reflexivity).
  split; [exact R1|exact R4].
Defined.

(** ** The scratch grid *)

Section Scratch.

Lemma clear_grid_eq g : wf g -> clear_grid g = dead_grid.
Proof.
  intros H. unfold clear_grid.
  rewrite (nested_for_write_cells (fun _ _ => DEAD) g).
  apply write_cells_all; [exact H|]. apply all_cells_complete.
Qed.

Lemma initialize_grid_eq g : wf g -> initialize_grid g = initialize_grid dead_grid.
Proof.
  intros H. unfold initialize_grid.
  rewrite (clear_grid_eq g H), (clear_grid_eq dead_grid wf_dead_grid). reflexivity.
Qed.

Lemma wf_for_set {A} (l : list A) (f : A -> Grid -> Grid) g :
  (forall a g, wf g -> wf (f a g)) -> wf g ->
  wf (fold_left (fun g a => f a g) l g).
Proof.
  intros Hf. revert g. induction l as [|a l IH]; intros g H; [exact H|].
  cbn [fold_left]. apply IH, Hf, H.
Qed.

Lemma wf_initialize_grid g : wf g -> wf (initialize_grid g).
Proof.
  intros H. unfold initialize_grid, for_range. cbv zeta.
  apply wf_for_set; [|rewrite (clear_grid_eq g H); apply wf_dead_grid].
  intros i g' Hg'. apply wf_for_set; [|exact Hg'].
  intros j g'' Hg''. apply wf_set, Hg''.
Qed.

End Scratch.

(** C10: the final grid does not depend on what the scratch grid held:
    for every update variant, every initial grid and every number of
    generations, two runs that differ only in the contents of the scratch
    grid end with the same grid, because each generation stores into every
    cell of the scratch grid before copying it back; so [run_simulation],
    which passes both arrays as the stack left them, has one result. *)
Theorem scratch_grid_irrelevant (v : variant) (n : nat) (g s1 s2 a1 a2 : Grid) :
  admissible v -> wf g -> wf s1 -> wf s2 -> wf a1 -> wf a2 ->
  grid (run v n (Sim g s1)) = grid (run v n (Sim g s2)) /\
  ((0 < n)%nat -> next_grid (run v n (Sim g s1)) = next_grid (run v n (Sim g s2))) /\
  (forall i j, in_range i = true -> in_range j = true ->
     get (compute_next g s1) i j = next_cell g i j) /\
  (forall order i j, complete order -> in_range i = true -> in_range j = true ->
     get (compute_next_parallel order g s1) i j = next_cell g i j) /\
  run_simulation v a1 s1 = run_simulation v a2 s2.
Proof.
  intros Ha Hg H1 H2 A1 A2.
  destruct (run_step v n (Sim g s1) Ha Hg H1) as (E1 & _ & _ & N1).
  destruct (run_step v n (Sim g s2) Ha Hg H2) as (E2 & _ & _ & N2).
  cbn [grid next_grid] in *. split_and!.
  - by rewrite E1, E2.
  - intros Hn. by rewrite N1, N2, E1, E2.
  - intros i j Hi Hj. rewrite (compute_next_step g s1 H1). by apply get_step.
  - intros order i j Hc Hi Hj.
    rewrite (compute_next_parallel_step order g s1 H1 Hc). by apply get_step.
  - unfold run_simulation.
    rewrite (run_grid v ITERATIONS _ s1 Ha (wf_initialize_grid a1 A1) H1).
    rewrite (run_grid v ITERATIONS _ s2 Ha (wf_initialize_grid a2 A2) H2).
    rewrite (initialize_grid_eq a1 A1), (initialize_grid_eq a2 A2). reflexivity.
Qed.

Lemma scratch_grid_irrelevant_witness :
  run_simulation (ParallelGuided 4 (fun _ => sample_chunks) (fun _ => sample_guided_order))
    junk_grid junk_grid
  = run_simulation (ParallelGuided 4 (fun _ => sample_chunks) (fun _ => sample_guided_order))
    dead_grid dead_grid.
Proof.
  assert (Ha : admissible
    (ParallelGuided 4 (fun _ => sample_chunks) (fun _ => sample_guided_order))).
  { intros iter. exact sample_guided_execution. }
  exact (proj2 (proj2 (proj2 (proj2
    (scratch_grid_irrelevant _ 0 dead_grid junk_grid dead_grid junk_grid dead_grid
       Ha wf_dead_grid wf_junk_grid wf_dead_grid wf_junk_grid wf_dead_grid))))).
Defined.

(** ** The glider *)

Section Glider.

Lemma shows_tabulate cells :
  shows (tabulate (fun i j => if cell_in i j cells then ALIVE else DEAD)) cells.
Proof. intros i j Hi Hj. by rewrite get_tabulate. Qed.

Lemma glider_start :
  place_glider 10 10 dead_grid
  = tabulate (fun i j => if cell_in i j glider_cells then ALIVE else DEAD).
Proof. vm_compute. reflexivity. Qed.

Lemma glider_after_4 :
  Nat.iter 4 step (place_glider 10 10 dead_grid)
  = tabulate (fun i j => if cell_in i j (translate 1 1 glider_cells) then ALIVE else DEAD).
Proof. vm_compute. reflexivity. Qed.

Lemma glider_moved : place_glider 11 11 dead_grid = Nat.iter 4 step (place_glider 10 10 dead_grid).
Proof. vm_compute. reflexivity. Qed.

(** The glider-only grid is one [initialize_glider_grid] can leave: when
    every random cell falls on (12,12), a cell of the glider. *)
Example glider_only_reachable :
  initialize_glider_grid (fun _ => 1212) junk_grid = place_glider 10 10 dead_grid.
Proof. vm_compute. reflexivity. Qed.

Lemma wf_place_glider r c g : wf g -> wf (place_glider r c g).
Proof. intros H. unfold place_glider. auto 6 with shape. Qed.

End Glider.

(** C4: from the grid that holds only the glider at rows and columns 10
    to 12 (what [initialize_glider_grid] stores before its random cells),
    four serial updates give the grid that holds only the same shape moved
    by (1,1) on the torus: the glider placed one row and one column on. *)
Theorem glider_translates (g0 scratch : Grid) :
  wf g0 -> wf scratch ->
  let start := place_glider 10 10 (clear_grid g0) in
  let final := grid (Nat.iter 4 update_grid_serial (Sim start scratch)) in
  shows start glider_cells /\
  shows final (translate 1 1 glider_cells) /\
  final = place_glider 11 11 (clear_grid g0).
Proof.
  intros H0 Hs start final.
  assert (Es : start = place_glider 10 10 dead_grid).
  { unfold start. by rewrite (clear_grid_eq g0 H0). }
  assert (Ef : final = Nat.iter 4 step (place_glider 10 10 dead_grid)).
  { unfold final. rewrite Es.
    apply (run_grid VisualSerial 4 _ scratch I
             (wf_place_glider 10 10 _ wf_dead_grid) Hs). }
  split_and!.
  - rewrite Es, glider_start. apply shows_tabulate.
  - rewrite Ef, glider_after_4. apply shows_tabulate.
  - rewrite Ef, (clear_grid_eq g0 H0). symmetry. apply glider_moved.
Qed.

Lemma glider_translates_witness :
  shows (grid (Nat.iter 4 update_grid_serial
                 (Sim (place_glider 10 10 (clear_grid junk_grid)) junk_grid)))
        (translate 1 1 glider_cells).
Proof.
  exact (proj1 (proj2 (glider_translates junk_grid junk_grid wf_junk_grid wf_junk_grid))).
Defined.

(** ** The live-cell count *)

Section LiveCells.

(** The counting loops over any list of columns: the count so far can
    be added afterwards. *)
Lemma count_row_acc (h : Z -> bool) (cols : list Z) count :
  fold_left (fun count j => if h j then count + 1 else count) cols count
  = count + fold_left (fun count j => if h j then count + 1 else count) cols 0.
Proof.
  revert count. induction cols as [|j cols IH]; intros count; cbn [fold_left]; [lia|].
  rewrite IH, (IH (if h j then 0 + 1 else 0)).
  destruct (h j); lia.
Qed.

Lemma count_fold_acc (h : Z -> Z -> bool) (cols rs : list Z) count :
  fold_left (fun count i =>
    fold_left (fun count j => if h i j then count + 1 else count) cols count) rs count
  = count + fold_left (fun count i =>
      fold_left (fun count j => if h i j then count + 1 else count) cols count) rs 0.
Proof.
  revert count. induction rs as [|i rs IH]; intros count; cbn [fold_left]; [lia|].
  rewrite IH. symmetry. rewrite IH. symmetry.
  rewrite (count_row_acc (h i) cols count). lia.
Qed.

Lemma count_rows_cons g i rs :
  count_rows g (i :: rs) = row_count g i + count_rows g rs.
Proof.
  unfold count_rows, row_count, for_range.
  generalize (seqZ 0 (GRID_SIZE - 0)). intros cols. cbn [fold_left].
  apply (count_fold_acc (fun i j => is_alive (get g i j)) cols rs).
Qed.

Lemma count_rows_app g rs1 rs2 :
  count_rows g (rs1 ++ rs2) = count_rows g rs1 + count_rows g rs2.
Proof.
  induction rs1 as [|i rs1 IH]; [reflexivity|].
  cbn [app]. rewrite (count_rows_cons g i (rs1 ++ rs2)), (count_rows_cons g i rs1), IH.
  apply Z.add_assoc.
Qed.

(** The order in which the rows are counted does not matter. *)
Lemma count_rows_perm g rs1 rs2 :
  Permutation rs1 rs2 -> count_rows g rs1 = count_rows g rs2.
Proof.
  induction 1 as [|i l1 l2 _ IH|i j l|l1 l2 l3 _ IH1 _ IH2].
  - reflexivity.
  - by rewrite (count_rows_cons g i l1), (count_rows_cons g i l2), IH.
  - rewrite (count_rows_cons g j), (count_rows_cons g i l), (count_rows_cons g i),
      (count_rows_cons g j l).
    rewrite !Z.add_assoc. f_equal. apply Z.add_comm.
  - by rewrite IH1.
Qed.

Lemma sum_acc (l : list Z) a : fold_left Z.add l a = a + fold_left Z.add l 0.
Proof.
  revert a. induction l as [|x l IH]; intros a; cbn [fold_left]; [lia|].
  rewrite IH, (IH (0 + x)). lia.
Qed.

(** The sum of the private counts is the count of all the rows handed out. *)
Lemma count_live_cells_concat team g :
  count_live_cells team g = count_rows g (concat team).
Proof.
  unfold count_live_cells. induction team as [|rs team IH]; [reflexivity|].
  cbn [map fold_left concat]. rewrite sum_acc, IH, count_rows_app.
  apply Z.add_0_l.
Qed.

Lemma initial_block_rows : count_rows (initialize_grid dead_grid) rows = 100.
Proof. vm_compute. reflexivity. Qed.

End LiveCells.

(** C7: right after [initialize_grid] (every cell DEAD but the centred
    10x10 square of ALIVE cells) [count_live_cells] returns 100, however
    the rows are shared among the threads of the reduction. *)
Theorem initial_live_count (g0 : Grid) (team : list (list Z)) :
  wf g0 -> Permutation (concat team) rows ->
  count_live_cells team (initialize_grid g0) = 100.
Proof.
  intros H0 Hp.
  rewrite count_live_cells_concat, (initialize_grid_eq g0 H0).
  rewrite (count_rows_perm _ _ _ Hp). apply initial_block_rows.
Qed.

Lemma initial_live_count_witness :
  count_live_cells [seqZ 50 25; seqZ 0 25; seqZ 75 25; seqZ 25 25]
    (initialize_grid junk_grid) = 100.
Proof.
  apply (initial_live_count junk_grid); [exact wf_junk_grid|].
  change (Permutation (seqZ 50 25 ++ seqZ 0 25 ++ seqZ 75 25 ++ seqZ 25 25 ++ [])
            (seqZ 0 25 ++ seqZ 25 25 ++ seqZ 50 25 ++ seqZ 75 25)).
  rewrite app_nil_r.
  rewrite (Permutation_app_comm (seqZ 50 25) _). rewrite <- !app_assoc.
  apply Permutation_app_head.
  rewrite (Permutation_app_comm (seqZ 75 25) _). rewrite <- !app_assoc.
  reflexivity.
Defined.

(** ** Comparison of IEEE 754 values *)

Section FloatOrder.

Ltac cases_compare :=
  repeat match goal with
  | H : context [Pos.compare_cont Eq ?x ?y] |- _ =>
      change (Pos.compare_cont Eq x y) with (Pos.compare x y) in H
  | |- context [Pos.compare_cont Eq ?x ?y] =>
      change (Pos.compare_cont Eq x y) with (Pos.compare x y)
  | H : context [Z.compare ?x ?y] |- _ => destruct (Z.compare_spec x y)
  | H : context [Pos.compare ?x ?y] |- _ => destruct (Pos.compare_spec x y)
  | |- context [Z.compare ?x ?y] => destruct (Z.compare_spec x y)
  | |- context [Pos.compare ?x ?y] => destruct (Pos.compare_spec x y)
  end.

Lemma compare_cont_Eq p q : Pos.compare_cont Eq p q = (p ?= q)%positive.
Proof. reflexivity. Qed.

Lemma SFleb_refl a : is_number a = true -> SFleb a a = true.
Proof.
  unfold SFleb, SFcompare. destruct a as [s|s| |s m e]; try done; intros _.
  - by destruct s.
  - rewrite Z.compare_refl.
    change (Pos.compare_cont Eq m m) with (Pos.compare m m).
    rewrite Pos.compare_refl. by destruct s.
Qed.

Lemma SFltb_SFleb a b : SFltb a b = true -> SFleb a b = true.
Proof. unfold SFltb, SFleb. by destruct (SFcompare a b) as [[]|]. Qed.

(** Two numbers compare one way or the other. *)
Lemma SFltb_false_SFleb a b :
  is_number a = true -> is_number b = true ->
  SFltb a b = false -> SFleb b a = true.
Proof.
  unfold SFltb, SFleb, SFcompare.
  destruct a as [sa|sa| |sa ma ea]; destruct b as [sb|sb| |sb mb eb];
    try done; intros _ _; try destruct sa; try destruct sb; try done;
    intros H; cases_compare; cbn in *; try done; lia.
Qed.

Lemma SFltb_SFleb_trans a b c :
  SFltb a b = true -> SFleb b c = true -> SFltb a c = true.
Proof.
  unfold SFltb, SFleb, SFcompare.
  destruct a as [sa|sa| |sa ma ea]; destruct b as [sb|sb| |sb mb eb];
    destruct c as [sc|sc| |sc mc ec];
    try done; try destruct sa; try destruct sb; try destruct sc; try done;
    intros H1 H2; cases_compare; cbn in *; try done; lia.
Qed.

End FloatOrder.

(** ** The best version of the report *)

Section BestVersion.

(** One [if (t < best_time) ...] of the report keeps the invariant. *)
Lemma best_step (times : list spec_float) (k : nat) (p : spec_float * string)
    (t : spec_float) (l : string) :
  first_lowest times k (fst p) -> version_labels !! k = Some (snd p) ->
  is_number (fst p) = true -> is_number t = true ->
  version_labels !! length times = Some l ->
  let p' := if SFltb t (fst p) then (t, l) else p in
  exists k', first_lowest (times ++ [t]) k' (fst p') /\
             version_labels !! k' = Some (snd p') /\ is_number (fst p') = true.
Proof.
  intros (Hk & Hle & Hlt) Hl Np Nt Hl' p'. subst p'.
  pose proof (lookup_lt_Some _ _ _ Hk) as Hlen.
  destruct (SFltb t (fst p)) eqn:E; cbn [fst snd].
  - exists (length times). split; [|by split]. unfold first_lowest. split_and!.
    + by rewrite lookup_app_r, Nat.sub_diag by lia.
    + intros t' Ht'. apply elem_of_app in Ht' as [Ht'|Ht'].
      * apply SFltb_SFleb. eapply SFltb_SFleb_trans; [exact E|]. by apply Hle.
      * apply list_elem_of_singleton in Ht' as ->. by apply SFleb_refl.
    + intros j t' Hj Ht'. rewrite lookup_app_l in Ht' by lia.
      eapply SFltb_SFleb_trans; [exact E|]. apply Hle.
      by eapply list_elem_of_lookup_2.
  - exists k. split; [|by split]. unfold first_lowest. split_and!.
    + by rewrite lookup_app_l by lia.
    + intros t' Ht'. apply elem_of_app in Ht' as [Ht'|Ht'].
      * by apply Hle.
      * apply list_elem_of_singleton in Ht' as ->. by apply SFltb_false_SFleb.
    + intros j t' Hj Ht'. rewrite lookup_app_l in Ht' by lia. by eapply Hlt.
Qed.

End BestVersion.

(** C9: for every five mean durations (numbers: a duration is never NaN)
    the report names as best the version with the lowest mean, and among
    versions that tie for the lowest the first in the order serial,
    static, guided, static-no-lock, guided-no-lock. *)
Theorem best_is_first_lowest (t0 t1 t2 t3 t4 : spec_float) :
  is_number t0 = true -> is_number t1 = true -> is_number t2 = true ->
  is_number t3 = true -> is_number t4 = true ->
  exists k,
    first_lowest [t0; t1; t2; t3; t4] k (fst (best_of t0 t1 t2 t3 t4)) /\
    version_labels !! k = Some (snd (best_of t0 t1 t2 t3 t4)).
Proof.
  intros N0 N1 N2 N3 N4. unfold best_of. cbv zeta.
  assert (I0 : first_lowest [t0] 0 (fst (t0, "Serial"%string))).
  { split_and!; [done| |intros; lia].
    intros t Ht. apply list_elem_of_singleton in Ht as ->. by apply SFleb_refl. }
  destruct (best_step [t0] 0 _ t1 "Parallel (Static)" I0 eq_refl N0 N1 eq_refl)
    as (k1 & I1 & L1 & M1).
  destruct (best_step [t0; t1] k1 _ t2 "Parallel (Guided)" I1 L1 M1 N2 eq_refl)
    as (k2 & I2 & L2 & M2).
  destruct (best_step [t0; t1; t2] k2 _ t3 "Parallel (Static No Critical)"
              I2 L2 M2 N3 eq_refl) as (k3 & I3 & L3 & M3).
  destruct (best_step [t0; t1; t2; t3] k3 _ t4 "Parallel (Guided No Critical)"
              I3 L3 M3 N4 eq_refl) as (k4 & I4 & L4 & _).
  exists k4. split; [exact I4|exact L4].
Qed.

Lemma best_is_first_lowest_witness :
  let t := S754_finite false 8388608 (-23) in
  let u := S754_finite false 12582912 (-23) in
  exists k, first_lowest [u; t; u; t; u] k (fst (best_of u t u t u)) /\
            version_labels !! k = Some (snd (best_of u t u t u)).
Proof.
  intros t u. apply (best_is_first_lowest u t u t u); reflexivity.
Defined.

Example best_of_tie :
  let t := S754_finite false 8388608 (-23) in
  let u := S754_finite false 12582912 (-23) in
  snd (best_of u t u t u) = "Parallel (Static)"%string.
Proof. reflexivity. Qed.

(** ** The density option *)

Section Density.

(** A density that is a number keeps its value when it lies in (0,1) and
    becomes 0.3 otherwise. *)
Lemma check_density_number d :
  is_number d = true ->
  check_density d = if in_unit_interval d then d else default_density.
Proof.
  unfold check_density, in_unit_interval, float_zero, float_one, default_density,
    SFleb, SFltb, SFcompare.
  destruct d as [s|s| |s m e]; try done; intros _; try (by destruct s).
  destruct s; [done|]. cbn [orb andb].
  rewrite (Z.compare_antisym e (-23)).
  rewrite (compare_cont_Eq 8388608 m), (compare_cont_Eq m 8388608).
  rewrite (Pos.compare_antisym m 8388608).
  destruct (e ?= -23); destruct (m ?= 8388608)%positive; reflexivity.
Qed.

(** NaN compares false with everything, so the test lets it through. *)
Lemma check_density_nan : check_density S754_nan = S754_nan.
Proof. reflexivity. Qed.

Lemma SFltb_nan x : SFltb x S754_nan = false.
Proof. by destruct x. Qed.

Lemma fold_left_pointwise {A B} (f h : A -> B -> A) (l : list B) (a : A) :
  (forall a b, f a b = h a b) -> fold_left f l a = fold_left h l a.
Proof.
  intros E. revert a. induction l as [|b l IH]; intros a; [reflexivity|].
  cbn [fold_left]. by rewrite E, IH.
Qed.

(** With a NaN density no cell is ever made ALIVE. *)
Lemma initialize_random_grid_nan RAND_MAX rand g :
  wf g -> initialize_random_grid RAND_MAX rand S754_nan g = dead_grid.
Proof.
  intros H. rewrite <- (clear_grid_eq g H).
  unfold initialize_random_grid, clear_grid, for_range.
  generalize (seqZ 0 (GRID_SIZE - 0)). intros cols.
  apply fold_left_pointwise. intros g1 i.
  apply fold_left_pointwise. intros g2 j.
  cbv zeta. by rewrite SFltb_nan.
Qed.

End Density.

(** C8, at the input [-r nan]: [atof] returns NaN, which is outside (0,1),
    and the density used is NaN instead of the default 0.3; the random
    initialisation then leaves every cell DEAD. *)
Theorem nan_density_kept (atof : string -> spec_float) (RAND_MAX : Z) (rand : Z -> Z) :
  atof "nan"%string = S754_nan ->
  density_used atof ["-r"; "nan"]%string = S754_nan /\
  in_unit_interval (density_used atof ["-r"; "nan"]%string) = false /\
  density_used atof ["-r"; "nan"]%string <> default_density /\
  initialize_random_grid RAND_MAX rand (density_used atof ["-r"; "nan"]%string) junk_grid
    = dead_grid.
Proof.
  intros Hnan.
  assert (E : density_used atof ["-r"; "nan"]%string = S754_nan).
  { unfold density_used. cbn. rewrite Hnan. reflexivity. }
  rewrite E. split_and!; try done.
  apply initialize_random_grid_nan, wf_junk_grid.
Qed.

Lemma nan_density_kept_witness :
  density_used (fun _ => S754_nan) ["-r"; "nan"]%string = S754_nan.
Proof.
  exact (proj1 (nan_density_kept (fun _ => S754_nan) 2147483647 (fun k => k) eq_refl)).
Defined.

(** ** What one generation does to a grid *)

Section StepFacts.

Lemma apply_rules_binary c n : apply_rules c n = ALIVE \/ apply_rules c n = DEAD.
Proof.
  unfold apply_rules.
  destruct (is_alive c), ((n <? 2) || (n >? 3)), (n =? 3); auto.
Qed.

Lemma count_alive_mask g1 g2 (cells : list (Z * Z)) :
  (forall p, p ∈ cells ->
     is_alive (get g1 (fst p) (snd p)) = is_alive (get g2 (fst p) (snd p))) ->
  count_alive g1 cells = count_alive g2 cells.
Proof.
  induction cells as [|p cells IH]; intros H; [reflexivity|].
  rewrite !count_alive_cons.
  rewrite IH by (intros q Hq; apply H; by right).
  rewrite (H p) by (by left). reflexivity.
Qed.

(** The next state of a cell is read off the ALIVE cells among the cell
    and its eight neighbours. *)
Lemma next_cell_local g1 g2 i j :
  in_range i = true -> in_range j = true ->
  (forall p, p ∈ (i, j) :: moore_neighbors i j ->
     is_alive (get g1 (fst p) (snd p)) = is_alive (get g2 (fst p) (snd p))) ->
  next_cell g1 i j = next_cell g2 i j.
Proof.
  intros Hi Hj H.
  pose proof (proj1 (in_range_spec i) Hi) as Ri.
  pose proof (proj1 (in_range_spec j) Hj) as Rj.
  unfold next_cell. rewrite !count_neighbors_count_alive by done.
  rewrite (count_alive_mask g1 g2) by (intros q Hq; apply H; by right).
  assert (E : is_alive (get g1 i j) = is_alive (get g2 i j)).
  { apply (H (i, j)). by left. }
  unfold apply_rules. rewrite E. reflexivity.
Qed.

Lemma step_mask g1 g2 : same_mask g1 g2 -> step g1 = step g2.
Proof.
  intros H. apply grid_ext; [apply wf_step..|].
  intros i j Hi Hj. rewrite !get_step by done.
  apply next_cell_local; [done..|].
  intros p Hp. apply elem_of_cons in Hp as [->|Hp]; [by apply H|].
  pose proof (proj1 (in_range_spec i) Hi) as Ri.
  pose proof (proj1 (in_range_spec j) Hj) as Rj.
  destruct (moore_neighbors_in_range i j p Ri Rj Hp). by apply H.
Qed.

Lemma iter_step_succ n g : Nat.iter (S n) step g = Nat.iter n step (step g).
Proof. apply Nat.iter_succ_r. Qed.

Lemma get_iter_step n g i j :
  in_range i = true -> in_range j = true ->
  get (Nat.iter (S n) step g) i j = next_cell (Nat.iter n step g) i j.
Proof. intros Hi Hj. rewrite Nat.iter_succ. by apply get_step. Qed.

End StepFacts.

(** ** The torus has no edge: moving the grid *)

Section Torus.

Lemma GRID_SIZE_pos : 0 < GRID_SIZE.
Proof. reflexivity. Qed.

Lemma wrap_small i : in_range i = true -> wrap i = i.
Proof. intros H. apply in_range_spec in H. by apply Z.mod_small. Qed.

Lemma wrap_wrap_add a b : wrap (wrap a + b) = wrap (a + b).
Proof. unfold wrap. apply Z.add_mod_idemp_l. pose proof GRID_SIZE_pos. lia. Qed.

Lemma wrap_wrap_sub a b : wrap (wrap a - b) = wrap (a - b).
Proof. unfold Z.sub. apply wrap_wrap_add. Qed.

Lemma wf_shift dr dc g : wf (shift dr dc g).
Proof. apply wf_tabulate. Qed.

Lemma get_shift dr dc g i j :
  in_range i = true -> in_range j = true ->
  get (shift dr dc g) i j = get g (wrap (i - dr)) (wrap (j - dc)).
Proof. intros. unfold shift. by rewrite get_tabulate. Qed.

(** The neighbours of a moved cell are the moved neighbours. *)
Lemma moore_neighbors_shift dr dc i j :
  map (fun p => (wrap (fst p - dr), wrap (snd p - dc))) (moore_neighbors i j)
  = moore_neighbors (wrap (i - dr)) (wrap (j - dc)).
Proof.
  unfold moore_neighbors. cbn [map fst snd].
  rewrite !wrap_wrap_sub, !wrap_wrap_add.
  repeat (f_equal; try (f_equal; f_equal; lia)).
Qed.

Lemma count_alive_shift dr dc g (cells : list (Z * Z)) :
  Forall (fun p => in_range (fst p) = true /\ in_range (snd p) = true) cells ->
  count_alive (shift dr dc g) cells
  = count_alive g (map (fun p => (wrap (fst p - dr), wrap (snd p - dc))) cells).
Proof.
  induction 1 as [|p cells [H1 H2] _ IH]; [reflexivity|].
  cbn [map]. rewrite !count_alive_cons, IH, get_shift by done. reflexivity.
Qed.

Lemma next_cell_shift dr dc g i j :
  in_range i = true -> in_range j = true ->
  next_cell (shift dr dc g) i j = next_cell g (wrap (i - dr)) (wrap (j - dc)).
Proof.
  intros Hi Hj.
  pose proof (proj1 (in_range_spec i) Hi) as Ri.
  pose proof (proj1 (in_range_spec j) Hj) as Rj.
  pose proof (proj1 (in_range_spec _) (wrap_range (i - dr))) as Ri'.
  pose proof (proj1 (in_range_spec _) (wrap_range (j - dc))) as Rj'.
  unfold next_cell. rewrite get_shift by done.
  rewrite !count_neighbors_count_alive by done.
  rewrite count_alive_shift, moore_neighbors_shift; [reflexivity|].
  apply Forall_forall. intros p Hp. by apply (moore_neighbors_in_range i j).
Qed.

Lemma step_shift dr dc g : step (shift dr dc g) = shift dr dc (step g).
Proof.
  apply grid_ext; [apply wf_step|apply wf_shift|].
  intros i j Hi Hj. rewrite get_step, get_shift, get_step by (done || apply wrap_range).
  by apply next_cell_shift.
Qed.

Lemma iter_step_shift n dr dc g :
  Nat.iter n step (shift dr dc g) = shift dr dc (Nat.iter n step g).
Proof.
  induction n as [|n IH]; [reflexivity|].
  rewrite !Nat.iter_succ, IH. apply step_shift.
Qed.

Lemma shift_shift a b c d g : shift a b (shift c d g) = shift (a + c) (b + d) g.
Proof.
  apply grid_ext; [apply wf_shift..|].
  intros i j Hi Hj. rewrite !get_shift by (done || apply wrap_range).
  rewrite !wrap_wrap_sub. f_equal; f_equal; lia.
Qed.

Lemma shift_0 g : wf g -> shift 0 0 g = g.
Proof.
  intros H. apply grid_ext; [apply wf_shift|done|].
  intros i j Hi Hj. rewrite get_shift by done.
  by rewrite !Z.sub_0_r, !wrap_small.
Qed.

(** Membership in a moved shape. *)
Lemma cell_in_translate dr dc (cells : list (Z * Z)) i j :
  in_range i = true -> in_range j = true ->
  Forall (fun p => in_range (fst p) = true /\ in_range (snd p) = true) cells ->
  cell_in i j (translate dr dc cells) = cell_in (wrap (i - dr)) (wrap (j - dc)) cells.
Proof.
  intros Hi Hj. unfold cell_in, translate.
  induction 1 as [|p cells [H1 H2] _ IH]; [reflexivity|].
  cbn [map existsb fst snd]. rewrite IH. f_equal.
  assert (E : forall x k y, in_range x = true -> in_range y = true ->
            (wrap (x + k) =? y) = (x =? wrap (y - k))).
  { intros x k y Hx Hy.
    destruct (Z.eqb_spec (wrap (x + k)) y) as [E1|N1];
      destruct (Z.eqb_spec x (wrap (y - k))) as [E2|N2]; try reflexivity.
    - exfalso. apply N2. rewrite <- E1, wrap_wrap_sub.
      replace (x + k - k) with x by lia. by rewrite wrap_small.
    - exfalso. apply N1. rewrite E2, wrap_wrap_add.
      replace (y - k + k) with y by lia. by rewrite wrap_small. }
  by rewrite !E.
Qed.

Lemma shows_shift dr dc g (cells : list (Z * Z)) :
  Forall (fun p => in_range (fst p) = true /\ in_range (snd p) = true) cells ->
  shows g cells -> shows (shift dr dc g) (translate dr dc cells).
Proof.
  intros Hc Hs i j Hi Hj.
  rewrite get_shift, cell_in_translate by done.
  apply Hs; apply wrap_range.
Qed.

Lemma glider_period :
  Nat.iter 4 step (place_glider 10 10 dead_grid) = shift 1 1 (place_glider 10 10 dead_grid).
Proof. vm_compute. reflexivity. Qed.

Lemma glider_flight (k : nat) :
  Nat.iter (4 * k) step (place_glider 10 10 dead_grid)
  = shift (Z.of_nat k) (Z.of_nat k) (place_glider 10 10 dead_grid).
Proof.
  induction k as [|k IH].
  - cbn [Nat.mul Nat.iter Z.of_nat]. symmetry. apply shift_0.
    apply wf_place_glider, wf_dead_grid.
  - replace (4 * S k)%nat with (4 + 4 * k)%nat by lia.
    rewrite Nat.iter_add, IH, iter_step_shift, glider_period, shift_shift.
    f_equal; lia.
Qed.

Lemma glider_cells_in_range :
  Forall (fun p => in_range (fst p) = true /\ in_range (snd p) = true) glider_cells.
Proof. repeat constructor. Qed.

End Torus.

(** X1: on well-formed grids [update_grid_parallel], however the run-time
    hands out the rows and interleaves the stores of its two parallel
    loops, leaves both grids exactly as [update_grid_serial] does. *)
Theorem update_grid_parallel_serial (T : Z) (chunks cchunks order corder : list (Z * Z))
    (st : sim) :
  wf (grid st) -> wf (next_grid st) ->
  guided_execution T chunks order = true ->
  guided_execution T cchunks corder = true ->
  update_grid_parallel order corder st = update_grid_serial st.
Proof.
  intros Hg Hs E1 E2.
  rewrite (update_grid_serial_step st Hg Hs).
  apply update_grid_parallel_step; [exact Hg|exact Hs| |].
  - apply (guided_execution_complete T chunks), E1.
  - apply (guided_execution_complete T cchunks), E2.
Qed.

Lemma update_grid_parallel_serial_witness :
  update_grid_parallel sample_guided_order all_cells (Sim (initialize_grid junk_grid) junk_grid)
  = update_grid_serial (Sim (initialize_grid junk_grid) junk_grid).
Proof.
  apply (update_grid_parallel_serial 4 sample_chunks [(0, GRID_SIZE)]).
  - apply wf_initialize_grid, wf_junk_grid.
  - apply wf_junk_grid.
  - exact sample_guided_execution.
  - vm_compute. reflexivity.
Defined.

(** X2: after at least one generation of any variant every cell of the
    grid is '*' or '.', whatever bytes the grid held before. *)
Theorem cells_stay_binary (v : variant) (n : nat) (g scratch : Grid) (i j : Z) :
  admissible v -> wf g -> wf scratch -> (0 < n)%nat ->
  in_range i = true -> in_range j = true ->
  get (grid (run v n (Sim g scratch))) i j = ALIVE \/
  get (grid (run v n (Sim g scratch))) i j = DEAD.
Proof.
  intros Ha Hg Hs Hn Hi Hj. rewrite (run_grid v n g scratch Ha Hg Hs).
  destruct n as [|n]; [lia|]. rewrite get_iter_step by done.
  apply apply_rules_binary.
Qed.

Lemma cells_stay_binary_witness :
  get (grid (run VisualSerial 1 (Sim junk_grid junk_grid))) 0 0 = ALIVE \/
  get (grid (run VisualSerial 1 (Sim junk_grid junk_grid))) 0 0 = DEAD.
Proof.
  apply (cells_stay_binary VisualSerial 1 junk_grid junk_grid 0 0);
    [exact I|exact wf_junk_grid|exact wf_junk_grid|lia|reflexivity|reflexivity].
Defined.

(** X3: a byte that is not '*' counts as a dead cell: two grids with the
    same ALIVE cells have the same grid after any positive number of
    generations of any variant. *)
Theorem only_alive_cells_matter (v : variant) (n : nat) (g1 g2 s1 s2 : Grid) :
  admissible v -> wf g1 -> wf g2 -> wf s1 -> wf s2 ->
  same_mask g1 g2 -> (0 < n)%nat ->
  grid (run v n (Sim g1 s1)) = grid (run v n (Sim g2 s2)).
Proof.
  intros Ha H1 H2 S1 S2 Hm Hn.
  rewrite (run_grid v n g1 s1 Ha H1 S1), (run_grid v n g2 s2 Ha H2 S2).
  destruct n as [|n]; [lia|].
  by rewrite !iter_step_succ, (step_mask g1 g2 Hm).
Qed.

Lemma only_alive_cells_matter_witness :
  grid (run Serial 3 (Sim junk_grid dead_grid)) = grid (run Serial 3 (Sim dead_grid junk_grid)).
Proof.
  apply (only_alive_cells_matter Serial 3 junk_grid dead_grid dead_grid junk_grid);
    [exact I|exact wf_junk_grid|exact wf_dead_grid|exact wf_dead_grid|exact wf_junk_grid| |lia].
  intros i j Hi Hj. unfold junk_grid, dead_grid. rewrite !get_tabulate by assumption.
  reflexivity.
Defined.

(** X4: the next state of a cell depends only on the cell and its eight
    neighbours on the torus: two grids that agree there give the cell the
    same state after one generation of any variant. *)
Theorem next_state_is_local (v : variant) (g1 g2 s1 s2 : Grid) (i j : Z) :
  admissible v -> wf g1 -> wf g2 -> wf s1 -> wf s2 ->
  in_range i = true -> in_range j = true ->
  (forall p, p ∈ (i, j) :: moore_neighbors i j ->
     get g1 (fst p) (snd p) = get g2 (fst p) (snd p)) ->
  get (grid (run v 1 (Sim g1 s1))) i j = get (grid (run v 1 (Sim g2 s2))) i j.
Proof.
  intros Ha H1 H2 S1 S2 Hi Hj H.
  rewrite (run_grid v 1 g1 s1 Ha H1 S1), (run_grid v 1 g2 s2 Ha H2 S2).
  change (Nat.iter 1 step g1) with (step g1). change (Nat.iter 1 step g2) with (step g2).
  rewrite !get_step by done. apply next_cell_local; [done..|].
  intros p Hp. by rewrite (H p Hp).
Qed.

Lemma next_state_is_local_witness :
  get (grid (run Serial 1 (Sim (set dead_grid 50 50 ALIVE) dead_grid))) 0 0
  = get (grid (run Serial 1 (Sim dead_grid dead_grid))) 0 0.
Proof.
  apply (next_state_is_local Serial (set dead_grid 50 50 ALIVE) dead_grid dead_grid dead_grid);
    [exact I|apply wf_set, wf_dead_grid|exact wf_dead_grid|exact wf_dead_grid
    |exact wf_dead_grid|reflexivity|reflexivity|].
  intros p Hp. rewrite (get_set dead_grid 50 50 ALIVE) by (exact wf_dead_grid || reflexivity).
  rewrite decide_False; [reflexivity|].
  intros [E1 E2]. apply list_elem_of_In in Hp. vm_compute in Hp.
  repeat (destruct Hp as [<-|Hp]; [cbn in E1; lia|]). exact Hp.
Defined.

(** X5: the grid has no edge: moving the whole grid by [(dr, dc)] on the
    torus and then running [n] generations of any variant gives the moved
    result of running them on the grid as it was. *)
Theorem update_commutes_with_shift (v : variant) (n : nat) (dr dc : Z) (g s1 s2 : Grid) :
  admissible v -> wf g -> wf s1 -> wf s2 ->
  grid (run v n (Sim (shift dr dc g) s1)) = shift dr dc (grid (run v n (Sim g s2))).
Proof.
  intros Ha Hg S1 S2.
  rewrite (run_grid v n _ s1 Ha (wf_shift dr dc g) S1), (run_grid v n g s2 Ha Hg S2).
  apply iter_step_shift.
Qed.

Lemma update_commutes_with_shift_witness :
  grid (run Serial 2 (Sim (shift 60 (-7) (initialize_grid junk_grid)) junk_grid))
  = shift 60 (-7) (grid (run Serial 2 (Sim (initialize_grid junk_grid) dead_grid))).
Proof.
  exact (update_commutes_with_shift Serial 2 60 (-7) (initialize_grid junk_grid)
           junk_grid dead_grid I (wf_initialize_grid _ wf_junk_grid)
           wf_junk_grid wf_dead_grid).
Defined.

(** X6: the glider never stops: from the grid that holds only the glider
    of [initialize_glider_grid], after [4 * k] serial updates the grid
    holds only that shape moved by [(k, k)], wrapping round the torus. *)
Theorem glider_flies_on (k : nat) (g0 scratch : Grid) :
  wf g0 -> wf scratch ->
  shows (grid (Nat.iter (4 * k) update_grid_serial
                 (Sim (place_glider 10 10 (clear_grid g0)) scratch)))
        (translate (Z.of_nat k) (Z.of_nat k) glider_cells).
Proof.
  intros H0 Hs. rewrite (clear_grid_eq g0 H0).
  pose proof (run_grid VisualSerial (4 * k) _ scratch I
                (wf_place_glider 10 10 _ wf_dead_grid) Hs) as E.
  cbn [run] in E. rewrite E, glider_flight.
  apply shows_shift; [exact glider_cells_in_range|].
  rewrite glider_start. apply shows_tabulate.
Qed.

Lemma glider_flies_on_witness :
  shows (grid (Nat.iter (4 * 95) update_grid_serial
                 (Sim (place_glider 10 10 (clear_grid junk_grid)) junk_grid)))
        (translate 95 95 glider_cells).
Proof.
  exact (glider_flies_on 95 junk_grid junk_grid wf_junk_grid wf_junk_grid).
Defined.

(** ** Neighbours of neighbours *)

Section Symmetry.

Ltac wrap_back :=
  try reflexivity; symmetry;
  rewrite ?wrap_wrap_add, ?wrap_wrap_sub;
  match goal with
  | |- wrap ?e = ?r => replace e with r by lia; apply wrap_small; assumption
  end.

Lemma dead_grid_not_alive a b : is_alive (get dead_grid a b) = false.
Proof.
  destruct (in_range a && in_range b) eqn:R.
  - apply andb_true_iff in R as [R1 R2]. by rewrite get_dead_grid.
  - unfold get. rewrite R. reflexivity.
Qed.

Lemma moore_neighbors_back r c p :
  in_range r = true -> in_range c = true ->
  p ∈ moore_neighbors r c -> (r, c) ∈ moore_neighbors (fst p) (snd p).
Proof.
  intros Hr Hc Hp. unfold moore_neighbors in Hp.
  repeat (apply elem_of_cons in Hp as [-> | Hp]);
    [..|by apply elem_of_nil in Hp]; cbn [fst snd]; unfold moore_neighbors;
    rewrite !elem_of_cons.
  - do 7 right. left. f_equal; wrap_back.
  - do 6 right. left. f_equal; wrap_back.
  - do 5 right. left. f_equal; wrap_back.
  - do 4 right. left. f_equal; wrap_back.
  - do 3 right. left. f_equal; wrap_back.
  - do 2 right. left. f_equal; wrap_back.
  - do 1 right. left. f_equal; wrap_back.
  - left. f_equal; wrap_back.
Qed.

(** A lone ALIVE cell is counted once by its neighbours and by nobody else. *)
Lemma count_alive_lone r c (cells : list (Z * Z)) :
  in_range r = true -> in_range c = true -> NoDup cells ->
  count_alive (set dead_grid r c ALIVE) cells
  = if decide ((r, c) ∈ cells) then 1 else 0.
Proof.
  intros Hr Hc. induction 1 as [|p cells Hp _ IH].
  - rewrite decide_False; [reflexivity|]. apply not_elem_of_nil.
  - rewrite count_alive_cons, IH.
    rewrite (get_set dead_grid r c ALIVE) by (exact wf_dead_grid || assumption).
    destruct (decide (fst p = r /\ snd p = c)) as [[E1 E2]|N].
    + assert (p = (r, c)) as -> by (destruct p; cbn in *; congruence).
      rewrite decide_False by exact Hp. rewrite decide_True by (by left). reflexivity.
    + pose proof (dead_grid_not_alive (fst p) (snd p)) as Hd.
      rewrite Hd. cbn [Z.b2z].
      destruct (decide ((r, c) ∈ cells)) as [Hin|Hout].
      * rewrite decide_True by (by right). reflexivity.
      * rewrite decide_False; [reflexivity|].
        rewrite elem_of_cons. intros [E|E]; [|done].
        apply N. by rewrite <- E.
Qed.

End Symmetry.

(** X7: being a neighbour goes both ways on the torus: [(i, j)] is among
    the eight cells counted for [(r, c)] exactly when [(r, c)] is among the
    eight counted for [(i, j)], and a lone ALIVE cell at one of them is
    counted the same from the other. *)
Theorem neighbors_symmetric (r c i j : Z) :
  in_range r = true -> in_range c = true ->
  in_range i = true -> in_range j = true ->
  ((i, j) ∈ moore_neighbors r c <-> (r, c) ∈ moore_neighbors i j) /\
  count_neighbors (set dead_grid r c ALIVE) i j
  = count_neighbors (set dead_grid i j ALIVE) r c.
Proof.
  intros Hr Hc Hi Hj.
  assert (S : (i, j) ∈ moore_neighbors r c <-> (r, c) ∈ moore_neighbors i j).
  { split; intros H.
    - apply (moore_neighbors_back r c (i, j) Hr Hc H).
    - apply (moore_neighbors_back i j (r, c) Hi Hj H). }
  split; [exact S|].
  pose proof (proj1 (in_range_spec r) Hr) as Rr.
  pose proof (proj1 (in_range_spec c) Hc) as Rc.
  pose proof (proj1 (in_range_spec i) Hi) as Ri.
  pose proof (proj1 (in_range_spec j) Hj) as Rj.
  rewrite !count_neighbors_count_alive by done.
  rewrite !count_alive_lone
    by (assumption || apply (moore_neighbors_NoDup _ _ Ri Rj)
        || apply (moore_neighbors_NoDup _ _ Rr Rc)).
  destruct (decide ((r, c) ∈ moore_neighbors i j)) as [H1|H1];
    destruct (decide ((i, j) ∈ moore_neighbors r c)) as [H2|H2];
    try reflexivity; exfalso; tauto.
Qed.

Lemma neighbors_symmetric_witness :
  count_neighbors (set dead_grid 0 0 ALIVE) 99 99
  = count_neighbors (set dead_grid 99 99 ALIVE) 0 0.
Proof.
  exact (proj2 (neighbors_symmetric 0 0 99 99 eq_refl eq_refl eq_refl eq_refl)).
Defined.

(** ** Counting and initialising, cell by cell *)

Section Tables.

Lemma count_alive_app g (l1 l2 : list (Z * Z)) :
  count_alive g (l1 ++ l2) = count_alive g l1 + count_alive g l2.
Proof.
  induction l1 as [|p l1 IH]; [reflexivity|].
  cbn [app]. rewrite !count_alive_cons, IH. lia.
Qed.

Lemma count_alive_row g i (cols : list Z) :
  fold_left (fun count j => if is_alive (get g i j) then count + 1 else count) cols 0
  = count_alive g (map (pair i) cols).
Proof.
  induction cols as [|j cols IH]; [reflexivity|].
  cbn [fold_left map]. rewrite count_alive_cons. cbn [fst snd].
  rewrite (count_row_acc (fun j => is_alive (get g i j)) cols), IH.
  destruct (is_alive (get g i j)); reflexivity.
Qed.

Lemma row_count_alive g i : row_count g i = count_alive g (row_cells i).
Proof. unfold row_count, row_cells, for_range. rewrite Z.sub_0_r. apply count_alive_row. Qed.

Lemma count_rows_alive g (rs : list Z) :
  count_rows g rs = count_alive g (flat_map row_cells rs).
Proof.
  induction rs as [|i rs IH]; [reflexivity|].
  cbn [flat_map]. rewrite count_rows_cons, count_alive_app, IH, row_count_alive.
  reflexivity.
Qed.

Lemma count_live_cells_alive team g :
  Permutation (concat team) rows ->
  count_live_cells team g = count_alive g all_cells.
Proof.
  intros Hp. rewrite count_live_cells_concat, (count_rows_perm _ _ _ Hp).
  apply count_rows_alive.
Qed.

Lemma length_all_cells : Z.of_nat (length all_cells) = GRID_SIZE * GRID_SIZE.
Proof. vm_compute. reflexivity. Qed.

Lemma count_alive_zero g (cells : list (Z * Z)) :
  count_alive g cells = 0 <->
  forall p, p ∈ cells -> is_alive (get g (fst p) (snd p)) = false.
Proof.
  induction cells as [|p cells IH].
  - split; [|reflexivity]. intros _ p Hp. by apply elem_of_nil in Hp.
  - rewrite count_alive_cons.
    pose proof (count_alive_bounds g cells) as B. split.
    + intros H q Hq.
      destruct (is_alive (get g (fst p) (snd p))) eqn:E; cbn [Z.b2z] in H; [lia|].
      apply elem_of_cons in Hq as [->|Hq]; [exact E|].
      apply IH; [lia|exact Hq].
    + intros H. rewrite (H p) by (by left). cbn [Z.b2z].
      rewrite (proj2 IH); [reflexivity|]. intros q Hq. apply H. by right.
Qed.

Lemma cell_in_spec i j (cells : list (Z * Z)) :
  cell_in i j cells = true <-> (i, j) ∈ cells.
Proof.
  unfold cell_in. rewrite existsb_exists. split.
  - intros ([a b] & Hin & E). cbn [fst snd] in E.
    apply andb_true_iff in E as [E1 E2].
    apply Z.eqb_eq in E1. apply Z.eqb_eq in E2. subst.
    by apply list_elem_of_In.
  - intros H. exists (i, j). split; [by apply list_elem_of_In|].
    cbn [fst snd]. by rewrite !Z.eqb_refl.
Qed.

Lemma fold_left_map_list {A B C} (f : A -> C -> A) (h : B -> C) (l : list B) (a : A) :
  fold_left f (map h l) a = fold_left (fun a b => f a (h b)) l a.
Proof. revert a. induction l as [|b l IH]; intros a; [reflexivity|]. apply IH. Qed.

(** The random loop of [initialize_glider_grid] is a sequence of stores of
    '*' into the picked cells. *)
Lemma add_random_cells_write n rand g :
  add_random_cells n rand g = write_cells (fun _ _ => ALIVE) (random_picks n rand) g.
Proof.
  unfold add_random_cells, for_range, write_cells, random_picks.
  rewrite Z.sub_0_r, fold_left_map_list. reflexivity.
Qed.

Lemma initialize_grid_table :
  initialize_grid dead_grid
  = tabulate (fun i j => if in_center i j then ALIVE else DEAD).
Proof. vm_compute. reflexivity. Qed.

(** [initialize_random_grid] stores the outcome of its test into every cell. *)
Lemma initialize_random_grid_table RAND_MAX rand density g :
  wf g ->
  initialize_random_grid RAND_MAX rand density g
  = tabulate (fun i j => if random_test RAND_MAX rand density i j then ALIVE else DEAD).
Proof.
  intros H.
  rewrite <- (write_cells_all _ all_cells g H all_cells_complete).
  rewrite <- nested_for_write_cells.
  unfold initialize_random_grid, random_test, for_range.
  generalize (seqZ 0 (GRID_SIZE - 0)). intros cols.
  apply fold_left_pointwise. intros g1 i.
  apply fold_left_pointwise. intros g2 j.
  cbv zeta. by destruct (SFltb _ _).
Qed.

Lemma wf_initialize_random_grid RAND_MAX rand density g :
  wf g -> wf (initialize_random_grid RAND_MAX rand density g).
Proof. intros H. rewrite initialize_random_grid_table by done. apply wf_tabulate. Qed.

End Tables.

(** X8: [count_live_cells] returns the number of '*' cells of the grid,
    a number from 0 to 10000, whichever way the rows are shared among the
    threads of the reduction. *)
Theorem count_live_cells_counts (team1 team2 : list (list Z)) (g : Grid) :
  Permutation (concat team1) rows -> Permutation (concat team2) rows ->
  count_live_cells team1 g = count_alive g all_cells /\
  count_live_cells team1 g = count_live_cells team2 g /\
  0 <= count_live_cells team1 g <= GRID_SIZE * GRID_SIZE.
Proof.
  intros H1 H2. rewrite (count_live_cells_alive team1 g H1), (count_live_cells_alive team2 g H2).
  split_and!; try reflexivity.
  - apply count_alive_bounds.
  - pose proof (count_alive_bounds g all_cells) as B.
    rewrite length_all_cells in B. lia.
Qed.

Lemma count_live_cells_counts_witness :
  count_live_cells [rows] (initialize_grid junk_grid)
  = count_live_cells [seqZ 0 50; seqZ 50 50] (initialize_grid junk_grid).
Proof.
  assert (P1 : Permutation (concat [rows]) rows).
  { cbn [concat]. rewrite app_nil_r. reflexivity. }
  assert (P2 : Permutation (concat [seqZ 0 50; seqZ 50 50]) rows).
  { change (Permutation (seqZ 0 50 ++ seqZ 50 50 ++ []) (seqZ 0 50 ++ seqZ 50 50)).
    rewrite app_nil_r. reflexivity. }
  exact (proj1 (proj2 (count_live_cells_counts [rows] [seqZ 0 50; seqZ 50 50]
                         (initialize_grid junk_grid) P1 P2))).
Defined.

(** X9: [count_live_cells] returns 0 exactly when no cell of the grid is
    '*'. *)
Theorem count_live_cells_zero (team : list (list Z)) (g : Grid) :
  Permutation (concat team) rows ->
  (count_live_cells team g = 0 <->
   forall i j, in_range i = true -> in_range j = true -> is_alive (get g i j) = false).
Proof.
  intros Hp. rewrite (count_live_cells_alive team g Hp), count_alive_zero. split.
  - intros H i j Hi Hj. apply (H (i, j)). by apply in_all_cells.
  - intros H [i j] Hin. apply in_all_cells in Hin as [Hi Hj]. by apply H.
Qed.

Lemma count_live_cells_zero_witness : count_live_cells [rows] junk_grid = 0.
Proof.
  assert (P1 : Permutation (concat [rows]) rows).
  { cbn [concat]. rewrite app_nil_r. reflexivity. }
  apply (count_live_cells_zero [rows] junk_grid P1).
  intros i j Hi Hj. unfold junk_grid. rewrite get_tabulate by assumption. reflexivity.
Defined.

(** X10: [initialize_grid] rewrites the whole grid: whatever it held, the
    cells of rows and columns 45 to 54 are '*' afterwards and every other
    cell is '.'. *)
Theorem initialize_grid_block (g : Grid) (i j : Z) :
  wf g -> in_range i = true -> in_range j = true ->
  get (initialize_grid g) i j = if in_center i j then ALIVE else DEAD.
Proof.
  intros H Hi Hj. rewrite (initialize_grid_eq g H), initialize_grid_table.
  by apply get_tabulate.
Qed.

Lemma initialize_grid_block_witness :
  get (initialize_grid junk_grid) 54 45 = ALIVE /\ get (initialize_grid junk_grid) 55 45 = DEAD.
Proof.
  split.
  - exact (initialize_grid_block junk_grid 54 45 wf_junk_grid eq_refl eq_refl).
  - exact (initialize_grid_block junk_grid 55 45 wf_junk_grid eq_refl eq_refl).
Defined.

(** X11: after [initialize_glider_grid] a cell is '*' exactly when it is
    one of the five glider cells or one of the 100 cells picked with
    [rand()], and '.' otherwise, whatever the grid held; as [rand()] is
    never negative, every picked cell lies inside the grid. *)
Theorem initialize_glider_grid_cells (rand : Z -> Z) (g : Grid) (i j : Z) :
  wf g -> in_range i = true -> in_range j = true ->
  (forall k, 0 <= k -> 0 <= rand k) ->
  get (initialize_glider_grid rand g) i j
    = (if cell_in i j glider_cells || cell_in i j (random_picks 100 rand)
       then ALIVE else DEAD) /\
  Forall (fun p => in_range (fst p) = true /\ in_range (snd p) = true)
         (random_picks 100 rand).
Proof.
  intros H Hi Hj Hrand. split.
  - unfold initialize_glider_grid.
    rewrite add_random_cells_write, (clear_grid_eq g H).
    rewrite get_write_cells by (done || apply wf_place_glider, wf_dead_grid).
    rewrite glider_start, get_tabulate by done.
    destruct (decide ((i, j) ∈ random_picks 100 rand)) as [Hin|Hout].
    + apply cell_in_spec in Hin. rewrite Hin, orb_true_r. reflexivity.
    + destruct (cell_in i j (random_picks 100 rand)) eqn:E.
      * apply cell_in_spec in E. contradiction.
      * rewrite orb_false_r. reflexivity.
  - unfold random_picks. apply Forall_forall. intros p Hp.
    apply list_elem_of_In, in_map_iff in Hp as (k & <- & Hk). cbn [fst snd].
    apply list_elem_of_In, elem_of_seqZ in Hk.
    assert (B : forall x, 0 <= x -> in_range (Z.rem x GRID_SIZE) = true).
    { intros x Hx. apply in_range_spec.
      pose proof (Z.rem_bound_pos x GRID_SIZE Hx GRID_SIZE_pos). lia. }
    split; apply B, Hrand; lia.
Qed.

Lemma initialize_glider_grid_cells_witness :
  get (initialize_glider_grid (fun k => 7 * k + 3) junk_grid) 3 10 = ALIVE.
Proof.
  exact (proj1 (initialize_glider_grid_cells (fun k => 7 * k + 3) junk_grid 3 10
                  wf_junk_grid eq_refl eq_refl ltac:(intros k; lia))).
Defined.

(** X12: [initialize_random_grid] rewrites the whole grid with '*' and
    '.' only, and with the same [rand()] values a higher density never
    loses a cell: a cell that is '*' at density [d1] is '*' at any density
    [d2 >= d1]. *)
Theorem initialize_random_grid_monotone (RAND_MAX : Z) (rand : Z -> Z)
    (d1 d2 : spec_float) (g1 g2 : Grid) (i j : Z) :
  wf g1 -> wf g2 -> in_range i = true -> in_range j = true ->
  SFleb d1 d2 = true ->
  (get (initialize_random_grid RAND_MAX rand d1 g1) i j = ALIVE \/
   get (initialize_random_grid RAND_MAX rand d1 g1) i j = DEAD) /\
  (get (initialize_random_grid RAND_MAX rand d1 g1) i j = ALIVE ->
   get (initialize_random_grid RAND_MAX rand d2 g2) i j = ALIVE).
Proof.
  intros H1 H2 Hi Hj Hle.
  rewrite !initialize_random_grid_table, !get_tabulate by done.
  unfold random_test.
  destruct (SFltb _ d1) eqn:E1.
  - split; [by left|]. intros _.
    by rewrite (SFltb_SFleb_trans _ d1 d2 E1 Hle).
  - split; [by right|]. discriminate.
Qed.

Lemma sample_random_cell :
  get (initialize_random_grid 2147483647 (fun k => k) default_density junk_grid) 0 5 = ALIVE.
Proof.
  pose proof (initialize_random_grid_table 2147483647 (fun k => k) default_density
                junk_grid wf_junk_grid) as E.
  pose proof (get_tabulate
    (fun i j => if random_test 2147483647 (fun k => k) default_density i j
                then ALIVE else DEAD) 0 5 eq_refl eq_refl) as F.
  rewrite <- E in F. rewrite F. vm_compute. reflexivity.
Qed.

Lemma initialize_random_grid_monotone_witness :
  get (initialize_random_grid 2147483647 (fun k => k) float_one dead_grid) 0 5 = ALIVE.
Proof.
  exact (proj2 (initialize_random_grid_monotone 2147483647 (fun k => k)
                  default_density float_one junk_grid dead_grid 0 5
                  wf_junk_grid wf_dead_grid eq_refl eq_refl eq_refl)
               sample_random_cell).
Defined.

(** ** The options of the command line *)

Section Options.

Variable atof : string -> spec_float.
Hypothesis atof_number : forall s, is_number (atof s) = true.

Lemma check_density_in_unit d :
  is_number d = true -> in_unit_interval (check_density d) = true.
Proof.
  intros H. rewrite (check_density_number d H).
  destruct (in_unit_interval d) eqn:E; [exact E|reflexivity].
Qed.

Lemma parse_args_sane (n : nat) :
  forall args o, (length args <= n)%nat -> sane o -> sane (parse_args atof args o).
Proof.
  induction n as [|n IH]; intros args o Hn [Hd Hp].
  - destruct args; [by split|cbn in Hn; lia].
  - destruct args as [|a rest]; [by split|]. cbn [length] in Hn.
    cbn [parse_args].
    destruct (String.eqb a "-p" || String.eqb a "--parallel").
    { apply IH; [lia|by split]. }
    destruct (String.eqb a "-r" || String.eqb a "--random").
    { destruct rest as [|next rest'].
      - split; [exact Hd|cbn; tauto].
      - cbn [length] in Hn. destruct (negb (first_char_is_dash next)).
        + apply IH; [lia|]. split; [|cbn; tauto].
          cbn [random_density]. apply check_density_in_unit, atof_number.
        + apply IH; [cbn [length]; lia|]. split; [exact Hd|cbn; tauto]. }
    destruct (String.eqb a "-g" || String.eqb a "--glider").
    { apply IH; [lia|]. split; [exact Hd|cbn; tauto]. }
    destruct (String.eqb a "-h" || String.eqb a "--help").
    { apply IH; [lia|by split]. }
    destruct (String.eqb a "-n" || String.eqb a "--no-stats").
    { apply IH; [lia|by split]. }
    apply IH; [lia|by split].
Qed.

End Options.

(** X13: whatever the command line, if [atof] returns numbers, the options
    [main] ends up with hold a density strictly between 0 and 1 and a
    pattern choice of 0, 1 or 2. *)
Theorem options_stay_sane (atof : string -> spec_float) (args : list string) :
  (forall s, is_number (atof s) = true) ->
  in_unit_interval (density_used atof args) = true /\
  (pattern_choice (parse_args atof args initial_options) = 0 \/
   pattern_choice (parse_args atof args initial_options) = 1 \/
   pattern_choice (parse_args atof args initial_options) = 2).
Proof.
  intros H. apply (parse_args_sane atof H (length args)); [lia|].
  split; [reflexivity|by left].
Qed.

Lemma options_stay_sane_witness :
  in_unit_interval (density_used (fun _ => float_one) ["-r"; "1"; "-g"; "-r"]%string) = true.
Proof.
  exact (proj1 (options_stay_sane (fun _ => float_one) ["-r"; "1"; "-g"; "-r"]%string
                  (fun _ => eq_refl))).
Defined.

(** ** The bars and the colours *)

Section Drawing.

Lemma count_neighbors_bounds g i j :
  in_range i = true -> in_range j = true -> 0 <= count_neighbors g i j <= 8.
Proof.
  intros Hi Hj. apply in_range_spec in Hi. apply in_range_spec in Hj.
  rewrite count_neighbors_count_alive by done.
  pose proof (count_alive_bounds g (moore_neighbors i j)) as B.
  cbn [moore_neighbors length] in B. lia.
Qed.

Lemma nested_fold_append {A} (f : Z -> Z -> A) (l1 l2 : list Z) (acc : list A) :
  fold_left (fun out i => fold_left (fun out j => out ++ [f i j]) l2 out) l1 acc
  = acc ++ map (fun p => f (fst p) (snd p)) (flat_map (fun i => map (pair i) l2) l1).
Proof.
  revert acc. induction l1 as [|i l1 IH]; intros acc.
  - cbn. by rewrite app_nil_r.
  - cbn [fold_left flat_map]. rewrite IH, map_app, app_assoc. f_equal.
    clear IH. revert acc. induction l2 as [|j l2 IH]; intros acc.
    + cbn. by rewrite app_nil_r.
    + cbn [fold_left map fst snd]. rewrite IH, <- app_assoc. reflexivity.
Qed.

(** [render_grid] draws the cells in row-major order, one rectangle each. *)
Lemma render_grid_cells g :
  render_grid g
  = map (fun p => (cell_rect (fst p) (snd p), fill_color g (fst p) (snd p))) all_cells.
Proof.
  unfold render_grid, for_range. rewrite Z.sub_0_r.
  apply (nested_fold_append (fun i j => (cell_rect i j, fill_color g i j))).
Qed.

Lemma in_cell_rect i j x y :
  0 <= x -> 0 <= y ->
  (in_rect (cell_rect i j) x y = true <-> j = Z.quot x CELL_SIZE /\ i = Z.quot y CELL_SIZE).
Proof.
  intros Hx Hy. unfold in_rect, cell_rect, CELL_SIZE. cbn [rect_x rect_y rect_w rect_h].
  rewrite !andb_true_iff, !Z.leb_le, !Z.ltb_lt.
  rewrite !Z.quot_div_nonneg by lia.
  pose proof (Z.div_mod x 8 ltac:(lia)). pose proof (Z.mod_pos_bound x 8 ltac:(lia)).
  pose proof (Z.div_mod y 8 ltac:(lia)). pose proof (Z.mod_pos_bound y 8 ltac:(lia)).
  lia.
Qed.

Lemma progress_bar_table :
  forallb (fun g =>
    String.eqb (string_of_list_ascii (c_string (progress_bar g)))
               (string_of_list_ascii (bar_text g))
    && (percent g =? g)
    && (Z.of_nat (length (c_string (progress_bar g))) =? 50)) (seqZ 0 101) = true.
Proof. vm_compute. reflexivity. Qed.

End Drawing.

(** X14: for a generation from 0 to 100 [print_simulation_info] prints a
    bar of exactly 50 characters: [generation / 2] times '=', then '>' and
    blanks; at generation 100 the bar is full and has no '>'.  The
    percentage printed after it is the generation itself. *)
Theorem progress_bar_text (generation : Z) :
  0 <= generation <= Z.of_nat ITERATIONS ->
  c_string (progress_bar generation) = bar_text generation /\
  Z.of_nat (length (c_string (progress_bar generation))) = 50 /\
  percent generation = generation.
Proof.
  intros Hg. pose proof progress_bar_table as Ht.
  rewrite forallb_forall in Ht.
  specialize (Ht generation). 
  assert (Hin : In generation (seqZ 0 101)).
  { apply list_elem_of_In, elem_of_seqZ. unfold ITERATIONS in Hg. lia. }
  apply Ht in Hin. apply andb_true_iff in Hin as [Hin H3].
  apply andb_true_iff in Hin as [H1 H2].
  apply String.eqb_eq in H1. apply Z.eqb_eq in H2. apply Z.eqb_eq in H3.
  split_and!; [|exact H3|exact H2].
  apply (f_equal list_ascii_of_string) in H1.
  by rewrite !list_ascii_of_string_of_list_ascii in H1.
Qed.

Lemma progress_bar_text_witness :
  c_string (progress_bar 100) = repeat "="%char 50 /\
  c_string (progress_bar 1) = ">"%char :: repeat " "%char 49.
Proof.
  split.
  - exact (proj1 (progress_bar_text 100 ltac:(unfold ITERATIONS; lia))).
  - exact (proj1 (progress_bar_text 1 ltac:(unfold ITERATIONS; lia))).
Defined.



(** X16: the colour [render_grid] gives a cell tells what the next
    generation does to it: a '*' cell is drawn white exactly when it stays
    '*', reddish when it dies with fewer than 2 neighbours and bluish when
    it dies with more than 3; any other cell is drawn dark gray. *)
Theorem fill_color_fate (g : Grid) (i j : Z) :
  in_range i = true -> in_range j = true ->
  (is_alive (get g i j) = false -> fill_color g i j = dark_gray) /\
  (is_alive (get g i j) = true ->
     (fill_color g i j = white <-> next_cell g i j = ALIVE) /\
     (fill_color g i j = reddish <-> count_neighbors g i j < 2) /\
     (fill_color g i j = bluish <-> 3 < count_neighbors g i j)).
Proof.
  intros Hi Hj. pose proof (count_neighbors_bounds g i j Hi Hj) as B.
  unfold fill_color, next_cell, apply_rules, live_cell_color.
  split; intros ->; [reflexivity|].
  generalize dependent (count_neighbors g i j). intros n B.
  destruct (Z.eqb_spec n 0), (Z.eqb_spec n 1), (Z.eqb_spec n 2), (Z.eqb_spec n 3),
    (Z.ltb_spec n 2), (Z.gtb_spec n 3); cbn [orb]; try lia;
    (split_and!; split; intros E; try discriminate E; try lia; reflexivity).
Qed.

Lemma fill_color_fate_witness :
  fill_color (initialize_grid junk_grid) 45 45 = white <->
  next_cell (initialize_grid junk_grid) 45 45 = ALIVE.
Proof.
  destruct (fill_color_fate (initialize_grid junk_grid) 45 45 eq_refl eq_refl) as [_ H].
  apply H.
  rewrite (initialize_grid_eq junk_grid wf_junk_grid), initialize_grid_table.
  rewrite get_tabulate by reflexivity. reflexivity.
Defined.

(** X17: [render_grid] draws one rectangle per cell, 10000 in all, and
    they tile the window: a pixel [(x, y)] of the 800x800 window lies in
    the rectangle of the cell [(y / 8, x / 8)], which is filled with that
    cell's colour, and in no rectangle drawn for another cell. *)
Theorem render_grid_tiles (g : Grid) (x y : Z) :
  0 <= x < WINDOW_WIDTH -> 0 <= y < WINDOW_HEIGHT ->
  Z.of_nat (length (render_grid g)) = GRID_SIZE * GRID_SIZE /\
  (cell_rect (Z.quot y CELL_SIZE) (Z.quot x CELL_SIZE),
   fill_color g (Z.quot y CELL_SIZE) (Z.quot x CELL_SIZE)) ∈ render_grid g /\
  in_rect (cell_rect (Z.quot y CELL_SIZE) (Z.quot x CELL_SIZE)) x y = true /\
  (forall i j, in_range i = true -> in_range j = true ->
     in_rect (cell_rect i j) x y = true ->
     i = Z.quot y CELL_SIZE /\ j = Z.quot x CELL_SIZE) /\
  (forall r c, (r, c) ∈ render_grid g -> in_rect r x y = true ->
     r = cell_rect (Z.quot y CELL_SIZE) (Z.quot x CELL_SIZE) /\
     c = fill_color g (Z.quot y CELL_SIZE) (Z.quot x CELL_SIZE)).
Proof.
  intros Hx Hy. rewrite render_grid_cells.
  assert (Ri : in_range (Z.quot y CELL_SIZE) = true).
  { apply in_range_spec. unfold WINDOW_HEIGHT, CELL_SIZE, GRID_SIZE in *.
    rewrite Z.quot_div_nonneg by lia.
    pose proof (Z.div_mod y 8 ltac:(lia)). pose proof (Z.mod_pos_bound y 8 ltac:(lia)). lia. }
  assert (Rj : in_range (Z.quot x CELL_SIZE) = true).
  { apply in_range_spec. unfold WINDOW_WIDTH, CELL_SIZE, GRID_SIZE in *.
    rewrite Z.quot_div_nonneg by lia.
    pose proof (Z.div_mod x 8 ltac:(lia)). pose proof (Z.mod_pos_bound x 8 ltac:(lia)). lia. }
  split_and!.
  - rewrite length_map. apply length_all_cells.
  - apply list_elem_of_In, in_map_iff.
    exists (Z.quot y CELL_SIZE, Z.quot x CELL_SIZE). split; [reflexivity|].
    apply list_elem_of_In, in_all_cells. by split.
  - apply in_cell_rect; [lia..|]. by split.
  - intros i j _ _ H. apply in_cell_rect in H; [|lia..]. tauto.
  - intros r c Hin Hr. apply list_elem_of_In, in_map_iff in Hin as ([i j] & E & _).
    cbn [fst snd] in E. injection E as <- <-.
    apply in_cell_rect in Hr as [-> ->]; [|lia..]. by split.
Qed.

Lemma render_grid_tiles_witness :
  in_rect (cell_rect (Z.quot 799 CELL_SIZE) (Z.quot 0 CELL_SIZE)) 0 799 = true.
Proof.
  exact (proj1 (proj2 (proj2 (render_grid_tiles junk_grid 0 799
    ltac:(unfold WINDOW_WIDTH, GRID_SIZE, CELL_SIZE; lia)
    ltac:(unfold WINDOW_HEIGHT, GRID_SIZE, CELL_SIZE; lia))))).
Defined.

(** ** The main loop of the window *)

Section MainLoop.

Variables (RAND_MAX : Z) (density : spec_float).

#[local] Abbreviation events_of evs st :=
  (fold_left (fun st e => handle_event RAND_MAX density e st) evs st).

Lemma events_counters (evs : list event) st :
  generation (events_of evs st) = generation st /\
  max_live_cells (events_of evs st) = max_live_cells st /\
  min_live_cells (events_of evs st) = min_live_cells st /\
  serial_generations (events_of evs st) = serial_generations st /\
  parallel_generations (events_of evs st) = parallel_generations st.
Proof.
  revert st. induction evs as [|e evs IH]; intros st; [done|].
  cbn [fold_left]. destruct (IH (handle_event RAND_MAX density e st)) as (-> & -> & -> & -> & ->).
  by destruct e.
Qed.

Lemma events_quit (evs : list event) st :
  quit (events_of evs st) = quit st || existsb is_quit evs.
Proof.
  revert st. induction evs as [|e evs IH]; intros st.
  - cbn. by rewrite orb_false_r.
  - cbn [fold_left existsb]. rewrite IH.
    destruct e; cbn [handle_event quit is_quit]; by destruct (quit st).
Qed.

Lemma events_cells (evs : list event) st :
  existsb is_reset evs = false -> cells (events_of evs st) = cells st.
Proof.
  revert st. induction evs as [|e evs IH]; intros st H; [done|].
  cbn [fold_left existsb] in *. apply orb_false_iff in H as [H1 H2].
  rewrite IH by done. by destruct e.
Qed.

Lemma events_wf (evs : list event) st :
  wf (grid (cells st)) -> wf (next_grid (cells st)) ->
  wf (grid (cells (events_of evs st))) /\ wf (next_grid (cells (events_of evs st))).
Proof.
  revert st. induction evs as [|e evs IH]; intros st Hg Hn; [done|].
  cbn [fold_left]. apply IH; destruct e; cbn [handle_event cells grid next_grid];
    try done. by apply wf_initialize_random_grid.
Qed.

Lemma frame_generation fi st :
  generation (frame RAND_MAX density fi st) = generation st + 1.
Proof.
  unfold frame. cbn [generation].
  by destruct (events_counters (pending fi) st) as (-> & _).
Qed.

Lemma frame_quit fi st :
  quit (frame RAND_MAX density fi st) = quit st || existsb is_quit (pending fi).
Proof. unfold frame. cbn [quit]. apply events_quit. Qed.

Lemma frame_generations fi st :
  serial_generations (frame RAND_MAX density fi st)
  + parallel_generations (frame RAND_MAX density fi st)
  = serial_generations st + parallel_generations st + 1 /\
  serial_generations st <= serial_generations (frame RAND_MAX density fi st) /\
  parallel_generations st <= parallel_generations (frame RAND_MAX density fi st).
Proof.
  unfold frame. cbn [serial_generations parallel_generations].
  destruct (events_counters (pending fi) st) as (_ & _ & _ & -> & ->).
  destruct (parallel_on _); lia.
Qed.

(** A frame whose run-time choices are executions advances the grid by
    one generation from what the events left. *)
Lemma frame_cells T fi st :
  frame_ok T fi -> wf (grid (cells st)) -> wf (next_grid (cells st)) ->
  let st1 := fold_left (fun st e => handle_event RAND_MAX density e st) (pending fi) st in
  cells (frame RAND_MAX density fi st)
  = Sim (step (grid (cells st1))) (step (grid (cells st1))).
Proof.
  intros (E1 & E2 & _) Hg Hn st1.
  destruct (events_wf (pending fi) st Hg Hn) as [W1 W2]. fold st1 in W1, W2.
  unfold frame. cbn [cells]. fold st1.
  destruct (parallel_on st1).
  - apply update_grid_parallel_step; [exact W1|exact W2| |].
    + apply (guided_execution_complete T (omp_chunks fi)), E1.
    + apply (guided_execution_complete T (omp_copy_chunks fi)), E2.
  - apply update_grid_serial_step; [exact W1|exact W2].
Qed.

Lemma frame_live_cells fi st :
  Permutation (concat (count_team fi)) rows ->
  0 <= max_live_cells st <= GRID_SIZE * GRID_SIZE ->
  0 <= min_live_cells st <= GRID_SIZE * GRID_SIZE ->
  let st1 := fold_left (fun st e => handle_event RAND_MAX density e st) (pending fi) st in
  let st' := frame RAND_MAX density fi st in
  0 <= min_live_cells st' <= count_alive (grid (cells st1)) all_cells /\
  count_alive (grid (cells st1)) all_cells <= max_live_cells st' <= GRID_SIZE * GRID_SIZE /\
  min_live_cells st' <= min_live_cells st /\ max_live_cells st <= max_live_cells st'.
Proof.
  intros Hp Hmax Hmin st1 st'. subst st'. unfold frame. fold st1.
  cbn [max_live_cells min_live_cells].
  destruct (events_counters (pending fi) st) as (_ & E1 & E2 & _). fold st1 in E1, E2.
  rewrite E1, E2, (count_live_cells_alive _ _ Hp).
  pose proof (count_alive_bounds (grid (cells st1)) all_cells) as B.
  rewrite length_all_cells in B.
  generalize dependent (count_alive (grid (cells st1)) all_cells). intros c B.
  destruct (Z.gtb_spec c (max_live_cells st)), (Z.ltb_spec c (min_live_cells st)); lia.
Qed.

#[local] Abbreviation loop fuel inputs k st := (main_loop fuel RAND_MAX density inputs k st).

Lemma main_loop_counters (inputs : nat -> frame_input) fuel k st :
  generation st <= generation (loop fuel inputs k st) /\
  serial_generations (loop fuel inputs k st) + parallel_generations (loop fuel inputs k st)
    - generation (loop fuel inputs k st)
  = serial_generations st + parallel_generations st - generation st /\
  serial_generations st <= serial_generations (loop fuel inputs k st) /\
  parallel_generations st <= parallel_generations (loop fuel inputs k st) /\
  (generation st <= Z.of_nat ITERATIONS + 1 ->
   generation (loop fuel inputs k st) <= Z.of_nat ITERATIONS + 1) /\
  (Z.of_nat ITERATIONS < generation st + Z.of_nat fuel ->
   quit (loop fuel inputs k st) = true \/
   Z.of_nat ITERATIONS < generation (loop fuel inputs k st)).
Proof.
  revert k st. induction fuel as [|fuel IH]; intros k st.
  - cbn [main_loop]. split_and!; try lia; intros H; right; lia.
  - cbn [main_loop].
    destruct (negb (quit st) && (generation st <=? Z.of_nat ITERATIONS)) eqn:C.
    + apply andb_true_iff in C as [_ C]. apply Z.leb_le in C.
      destruct (IH (S k) (frame RAND_MAX density (inputs k) st))
        as (I1 & I2 & I3 & I4 & I5 & I6).
      rewrite frame_generation in *.
      destruct (frame_generations (inputs k) st) as (F1 & F2 & F3).
      split_and!; try lia. intros H. apply I6. lia.
    + split_and!; try lia; intros _;
        apply andb_false_iff in C as [C|C];
        [left; by destruct (quit st)|right; apply Z.leb_gt in C; lia].
Qed.

Lemma main_loop_stopped (inputs : nat -> frame_input) fuel k st :
  quit st = true -> loop fuel inputs k st = st.
Proof. intros H. destruct fuel; [done|]. cbn [main_loop]. by rewrite H. Qed.

(** The loop runs up to and including the frame that brings the first
    quit event. *)
Lemma main_loop_until_quit (inputs : nat -> frame_input) fuel (k q : nat) st :
  quit st = false -> generation st = Z.of_nat k + 1 ->
  (k <= q)%nat -> (q < k + fuel)%nat -> (q < ITERATIONS)%nat ->
  (forall k', (k <= k' < q)%nat -> existsb is_quit (pending (inputs k')) = false) ->
  existsb is_quit (pending (inputs q)) = true ->
  generation (loop fuel inputs k st) = Z.of_nat q + 2 /\
  quit (loop fuel inputs k st) = true.
Proof.
  revert k st. induction fuel as [|fuel IH]; intros k st Hq Hg Hk Hf Hq' Hno Hyes; [lia|].
  cbn [main_loop]. rewrite Hq.
  assert (C : (generation st <=? Z.of_nat ITERATIONS) = true) by (apply Z.leb_le; lia).
  rewrite C. cbn [negb andb].
  destruct (decide (k = q)) as [->|Hne].
  - rewrite main_loop_stopped by (by rewrite frame_quit, Hyes, orb_true_r).
    rewrite frame_generation, frame_quit, Hyes, orb_true_r. split; [lia|done].
  - apply IH; try lia; try exact Hyes.
    + rewrite frame_quit, Hq, Hno by lia. reflexivity.
    + rewrite frame_generation. lia.
    + intros k' Hk'. apply Hno. lia.
Qed.

Lemma main_loop_no_quit (inputs : nat -> frame_input) fuel (k : nat) st :
  quit st = false -> generation st = Z.of_nat k + 1 ->
  (k + fuel = ITERATIONS)%nat ->
  (forall k', (k <= k' < ITERATIONS)%nat -> existsb is_quit (pending (inputs k')) = false) ->
  generation (loop fuel inputs k st) = Z.of_nat ITERATIONS + 1 /\
  quit (loop fuel inputs k st) = false.
Proof.
  revert k st. induction fuel as [|fuel IH]; intros k st Hq Hg Hf Hno.
  - cbn [main_loop]. split; [lia|done].
  - cbn [main_loop]. rewrite Hq.
    assert (C : (generation st <=? Z.of_nat ITERATIONS) = true) by (apply Z.leb_le; lia).
    rewrite C. cbn [negb andb]. apply IH; try lia.
    + rewrite frame_quit, Hq, Hno by lia. reflexivity.
    + rewrite frame_generation. lia.
    + intros k' Hk'. apply Hno. lia.
Qed.

Lemma main_loop_cells T (inputs : nat -> frame_input) fuel k st :
  (forall k', frame_ok T (inputs k')) ->
  (forall k', existsb is_reset (pending (inputs k')) = false) ->
  wf (grid (cells st)) -> wf (next_grid (cells st)) ->
  grid (cells (loop fuel inputs k st))
  = Nat.iter (Z.to_nat (generation (loop fuel inputs k st) - generation st)) step
      (grid (cells st)).
Proof.
  intros Hok Hnr. revert k st. induction fuel as [|fuel IH]; intros k st Hg Hn.
  - cbn [main_loop]. by rewrite Z.sub_diag.
  - cbn [main_loop].
    destruct (negb (quit st) && (generation st <=? Z.of_nat ITERATIONS)).
    + pose proof (frame_cells T (inputs k) st (Hok k) Hg Hn) as Ec. cbv zeta in Ec.
      rewrite (events_cells _ st (Hnr k)) in Ec.
      destruct (main_loop_counters inputs fuel (S k) (frame RAND_MAX density (inputs k) st))
        as (I1 & _).
      rewrite IH by (rewrite Ec; apply wf_step).
      rewrite frame_generation in *. rewrite Ec. cbn [grid].
      replace (Z.to_nat (generation (loop fuel inputs (S k) (frame RAND_MAX density (inputs k) st))
                 - generation st))
        with (S (Z.to_nat (generation (loop fuel inputs (S k)
                              (frame RAND_MAX density (inputs k) st))
                   - (generation st + 1)))) by lia.
      by rewrite iter_step_succ.
    + by rewrite Z.sub_diag.
Qed.

Lemma main_loop_live_cells (inputs : nat -> frame_input) fuel k st :
  (forall k', Permutation (concat (count_team (inputs k'))) rows) ->
  0 <= min_live_cells st <= max_live_cells st -> max_live_cells st <= GRID_SIZE * GRID_SIZE ->
  0 <= min_live_cells (loop fuel inputs k st) <= min_live_cells st /\
  max_live_cells st <= max_live_cells (loop fuel inputs k st) <= GRID_SIZE * GRID_SIZE.
Proof.
  intros Hp. revert k st. induction fuel as [|fuel IH]; intros k st H1 H2.
  - cbn [main_loop]. lia.
  - cbn [main_loop].
    destruct (negb (quit st) && (generation st <=? Z.of_nat ITERATIONS)); [|lia].
    destruct (frame_live_cells (inputs k) st (Hp k)) as (F1 & F2 & F3 & F4); [lia..|].
    cbv zeta in F1, F2, F3, F4.
    destruct (IH (S k) (frame RAND_MAX density (inputs k) st)) as [J1 J2]; lia.
Qed.

End MainLoop.

Lemma main_loop_first (RAND_MAX : Z) (density : spec_float) (inputs : nat -> frame_input)
    (g ng : Grid) (p s : bool) :
  main_loop ITERATIONS RAND_MAX density inputs 0 (initial_state g ng p s)
  = main_loop 99 RAND_MAX density inputs 1
      (frame RAND_MAX density (inputs 0%nat) (initial_state g ng p s)).
Proof. reflexivity. Qed.

Lemma quiet_frame_ok : frame_ok 1 quiet_frame.
Proof.
  split_and!; [vm_compute; reflexivity..|].
  cbn [quiet_frame count_team concat]. rewrite app_nil_r. reflexivity.
Qed.

(** X18: the main loop of the window always stops: after at most 100
    frames either a quit was seen or the generation counter is 101; at
    least one frame runs, and the number of serial plus parallel
    generations done is the number of frames, [generation - 1]. *)
Theorem main_loop_accounting (RAND_MAX : Z) (density : spec_float)
    (inputs : nat -> frame_input) (g ng : Grid) (p s : bool) :
  let st := main_loop ITERATIONS RAND_MAX density inputs 0 (initial_state g ng p s) in
  (quit st = true \/ generation st = Z.of_nat ITERATIONS + 1) /\
  2 <= generation st <= Z.of_nat ITERATIONS + 1 /\
  serial_generations st + parallel_generations st = generation st - 1 /\
  0 <= serial_generations st /\ 0 <= parallel_generations st.
Proof.
  intros st.
  destruct (main_loop_counters RAND_MAX density inputs ITERATIONS 0 (initial_state g ng p s))
    as (_ & I2 & I3 & I4 & I5 & I6).
  fold st in I2, I3, I4, I5, I6. cbn [initial_state generation serial_generations
    parallel_generations] in I2, I3, I4, I5, I6.
  assert (G2 : 2 <= generation st).
  { unfold st. rewrite main_loop_first.
    destruct (main_loop_counters RAND_MAX density inputs 99 1
                (frame RAND_MAX density (inputs 0%nat) (initial_state g ng p s))) as (J & _).
    rewrite frame_generation in J. cbn [initial_state generation] in J. lia. }
  specialize (I5 ltac:(lia)). specialize (I6 ltac:(lia)). clearbody st.
  split_and!; try lia.
  destruct I6 as [Q|Q]; [by left|right; lia].
Qed.

(** X19: the frame in which the first quit event (window close or ESC)
    arrives is still simulated in full, and it is the last: if that is
    frame [q] (counted from 0), the loop ends with [q + 1] generations
    done and [generation = q + 2]. *)
Theorem main_loop_quit (RAND_MAX : Z) (density : spec_float)
    (inputs : nat -> frame_input) (g ng : Grid) (p s : bool) (q : nat) :
  (q < ITERATIONS)%nat ->
  (forall k, (k < q)%nat -> existsb is_quit (pending (inputs k)) = false) ->
  existsb is_quit (pending (inputs q)) = true ->
  let st := main_loop ITERATIONS RAND_MAX density inputs 0 (initial_state g ng p s) in
  quit st = true /\ generation st = Z.of_nat q + 2 /\
  serial_generations st + parallel_generations st = Z.of_nat q + 1.
Proof.
  intros Hq Hno Hyes st.
  destruct (main_loop_until_quit RAND_MAX density inputs ITERATIONS 0 q
              (initial_state g ng p s)) as [G Q];
    [reflexivity|reflexivity|lia|lia|exact Hq|intros k' Hk'; apply Hno; lia|exact Hyes|].
  fold st in G, Q.
  destruct (main_loop_counters RAND_MAX density inputs ITERATIONS 0 (initial_state g ng p s))
    as (_ & I2 & _).
  fold st in I2. cbn [initial_state generation serial_generations parallel_generations] in I2.
  split_and!; [exact Q|exact G|lia].
Qed.

Lemma main_loop_quit_witness :
  let inputs := fun k : nat =>
    if (k =? 2)%nat then FrameInput [SDLK_p; SDLK_ESCAPE; SDLK_s] [rows] [] [] [] []
    else quiet_frame in
  generation (main_loop ITERATIONS 2147483647 default_density inputs 0
                (initial_state dead_grid junk_grid false true)) = 4.
Proof.
  intros inputs.
  refine (proj1 (proj2 (main_loop_quit 2147483647 default_density inputs dead_grid junk_grid
                          false true 2 _ _ _))).
  - unfold ITERATIONS. lia.
  - intros k Hk. destruct k as [|[|k]]; [reflexivity|reflexivity|lia].
  - reflexivity.
Defined.

(** X20: as long as nobody resets the grid with R, the grid the window
    shows is the iterated generation of the initial grid, however often P
    switches between [update_grid_serial] and [update_grid_parallel]:
    after the loop it is [generation - 1] generations on, and 100
    generations on when no quit event came. *)
Theorem main_loop_grid (T RAND_MAX : Z) (density : spec_float)
    (inputs : nat -> frame_input) (g ng : Grid) (p s : bool) :
  wf g -> wf ng ->
  (forall k, frame_ok T (inputs k)) ->
  (forall k, existsb is_reset (pending (inputs k)) = false) ->
  let st := main_loop ITERATIONS RAND_MAX density inputs 0 (initial_state g ng p s) in
  grid (cells st) = Nat.iter (Z.to_nat (generation st - 1)) step g /\
  ((forall k, (k < ITERATIONS)%nat -> existsb is_quit (pending (inputs k)) = false) ->
   grid (cells st) = Nat.iter ITERATIONS step g /\ quit st = false).
Proof.
  intros Hg Hn Hok Hnr st.
  pose proof (main_loop_cells RAND_MAX density T inputs ITERATIONS 0
                (initial_state g ng p s) Hok Hnr Hg Hn) as E.
  fold st in E. cbn [initial_state generation cells grid] in E.
  split; [exact E|]. intros Hnq.
  destruct (main_loop_no_quit RAND_MAX density inputs ITERATIONS 0
              (initial_state g ng p s)) as [G Q];
    [reflexivity|reflexivity|lia|intros k' Hk'; apply Hnq; lia|].
  fold st in G, Q. split; [|exact Q].
  rewrite E, G. f_equal; lia.
Qed.

Lemma main_loop_grid_witness :
  let inputs := fun k : nat =>
    if Nat.even k then FrameInput [SDLK_p; SDLK_SPACE] [rows] [(0, GRID_SIZE)] all_cells
                         [(0, GRID_SIZE)] all_cells
    else quiet_frame in
  grid (cells (main_loop ITERATIONS 2147483647 default_density inputs 0
                 (initial_state (initialize_grid junk_grid) junk_grid false true)))
  = Nat.iter ITERATIONS step (initialize_grid junk_grid).
Proof.
  intros inputs.
  refine (proj1 (proj2 (main_loop_grid 1 2147483647 default_density inputs
            (initialize_grid junk_grid) junk_grid false true
            (wf_initialize_grid _ wf_junk_grid) wf_junk_grid _ _) _)).
  - intros k. unfold inputs. destruct (Nat.even k); [|exact quiet_frame_ok].
    exact quiet_frame_ok.
  - intros k. unfold inputs. destruct (Nat.even k); reflexivity.
  - intros k _. unfold inputs. destruct (Nat.even k); reflexivity.
Defined.

(** X21: the live-cell statistics of the window bracket what was seen:
    at the end [0 <= min_live_cells <= max_live_cells <= 10000], and when
    the first frame brings no reset the live count of the initial grid
    lies between the two. *)
Theorem main_loop_live_statistics (RAND_MAX : Z) (density : spec_float)
    (inputs : nat -> frame_input) (g ng : Grid) (p s : bool) :
  (forall k, Permutation (concat (count_team (inputs k))) rows) ->
  let st := main_loop ITERATIONS RAND_MAX density inputs 0 (initial_state g ng p s) in
  0 <= min_live_cells st <= max_live_cells st /\
  max_live_cells st <= GRID_SIZE * GRID_SIZE /\
  (existsb is_reset (pending (inputs 0%nat)) = false ->
   min_live_cells st <= count_alive g all_cells <= max_live_cells st).
Proof.
  intros Hp st. unfold st. rewrite main_loop_first.
  destruct (frame_live_cells RAND_MAX density (inputs 0%nat) (initial_state g ng p s) (Hp 0%nat))
    as (F1 & F2 & _); [cbn; unfold GRID_SIZE; lia..|].
  cbv zeta in F1, F2.
  destruct (main_loop_live_cells RAND_MAX density inputs 99 1
              (frame RAND_MAX density (inputs 0%nat) (initial_state g ng p s)) Hp)
    as [J1 J2]; [lia..|].
  split_and!; try lia.
  intros Hnr. rewrite (events_cells RAND_MAX density _ _ Hnr) in F1, F2.
  cbn [initial_state cells grid] in F1, F2. lia.
Qed.

Lemma main_loop_live_statistics_witness :
  let st := main_loop ITERATIONS 2147483647 default_density (fun _ => quiet_frame) 0
              (initial_state (initialize_grid junk_grid) junk_grid true true) in
  0 <= min_live_cells st <= max_live_cells st.
Proof.
  refine (proj1 (main_loop_live_statistics 2147483647 default_density (fun _ => quiet_frame)
                   (initialize_grid junk_grid) junk_grid true true _)).
  intros k. cbn [quiet_frame count_team concat]. rewrite app_nil_r. reflexivity.
Defined.

(** X22: every run of the benchmark ends with the same grid: for any two
    variants, whatever the run-time does and whatever the two local
    arrays of [run_simulation] held, the final grids are equal, namely the
    100th generation of the centred block. *)
Theorem run_simulation_agrees (v1 v2 : variant) (a1 b1 a2 b2 : Grid) :
  admissible v1 -> admissible v2 -> wf a1 -> wf b1 -> wf a2 -> wf b2 ->
  run_simulation v1 a1 b1 = run_simulation v2 a2 b2 /\
  run_simulation v1 a1 b1 = Nat.iter ITERATIONS step (initialize_grid dead_grid).
Proof.
  intros A1 A2 Ha1 Hb1 Ha2 Hb2. unfold run_simulation.
  rewrite (run_grid v1 ITERATIONS _ b1 A1 (wf_initialize_grid a1 Ha1) Hb1).
  rewrite (run_grid v2 ITERATIONS _ b2 A2 (wf_initialize_grid a2 Ha2) Hb2).
  rewrite (initialize_grid_eq a1 Ha1), (initialize_grid_eq a2 Ha2).
  split; reflexivity.
Qed.

Lemma run_simulation_agrees_witness :
  run_simulation Serial junk_grid dead_grid
  = run_simulation (ParallelStaticNoCritical 4 (fun _ => lock_step_order)) dead_grid junk_grid.
Proof.
  refine (proj1 (run_simulation_agrees Serial
            (ParallelStaticNoCritical 4 (fun _ => lock_step_order))
            junk_grid dead_grid dead_grid junk_grid I _
            wf_junk_grid wf_dead_grid wf_dead_grid wf_junk_grid)).
  intros iter. exact lock_step_execution.
Defined.

(** X23: whichever pattern the command line selects, the initialiser
    rewrites every cell: the initial grid does not depend on what the
    array held before, and each of its cells is '*' or '.'. *)
Theorem initial_pattern_fresh (RAND_MAX : Z) (rand : Z -> Z) (o : options)
    (g1 g2 : Grid) (i j : Z) :
  wf g1 -> wf g2 -> in_range i = true -> in_range j = true ->
  initial_pattern RAND_MAX rand o g1 = initial_pattern RAND_MAX rand o g2 /\
  (get (initial_pattern RAND_MAX rand o g1) i j = ALIVE \/
   get (initial_pattern RAND_MAX rand o g1) i j = DEAD).
Proof.
  intros H1 H2 Hi Hj. unfold initial_pattern.
  destruct (pattern_choice o =? 1); [|destruct (pattern_choice o =? 2)].
  - rewrite !initialize_random_grid_table by done. split; [reflexivity|].
    rewrite get_tabulate by done. destruct (random_test _ _ _ _ _); auto.
  - unfold initialize_glider_grid.
    rewrite (clear_grid_eq g1 H1), (clear_grid_eq g2 H2). split; [reflexivity|].
    rewrite add_random_cells_write.
    rewrite get_write_cells by (done || apply wf_place_glider, wf_dead_grid).
    destruct (decide _); [by left|].
    rewrite glider_start, get_tabulate by done.
    destruct (cell_in i j glider_cells); auto.
  - rewrite (initialize_grid_eq g1 H1), (initialize_grid_eq g2 H2). split; [reflexivity|].
    rewrite initialize_grid_table, get_tabulate by done.
    destruct (in_center i j); auto.
Qed.

Lemma initial_pattern_fresh_witness :
  initial_pattern 2147483647 (fun k => k) (Options true 2 default_density false true) junk_grid
  = initial_pattern 2147483647 (fun k => k) (Options true 2 default_density false true) dead_grid.
Proof.
  exact (proj1 (initial_pattern_fresh 2147483647 (fun k => k)
                  (Options true 2 default_density false true) junk_grid dead_grid 0 0
                  wf_junk_grid wf_dead_grid eq_refl eq_refl)).
Defined.

(** X24: the two files compute the same thing serially: on well-formed
    grids [simulate_serial] (with [memcpy]) leaves both grids exactly as
    100 calls of [update_grid_serial] (with its copy loop) do. *)
Theorem serial_engines_agree (st : sim) :
  wf (grid st) -> wf (next_grid st) ->
  simulate_serial st = Nat.iter ITERATIONS update_grid_serial st.
Proof.
  intros Hg Hn.
  destruct (run_step Serial ITERATIONS st I Hg Hn) as (E1 & _ & _ & N1).
  destruct (run_step VisualSerial ITERATIONS st I Hg Hn) as (E2 & _ & _ & N2).
  cbn [run] in E1, E2, N1, N2. fold simulate_serial in E1, N1.
  specialize (N1 ltac:(unfold ITERATIONS; lia)).
  specialize (N2 ltac:(unfold ITERATIONS; lia)).
  destruct (simulate_serial st) as [a b].
  destruct (Nat.iter ITERATIONS update_grid_serial st) as [c d].
  cbn [grid next_grid] in *. congruence.
Qed.

Lemma serial_engines_agree_witness :
  simulate_serial (Sim (initialize_grid junk_grid) junk_grid)
  = Nat.iter ITERATIONS update_grid_serial (Sim (initialize_grid junk_grid) junk_grid).
Proof.
  exact (serial_engines_agree (Sim (initialize_grid junk_grid) junk_grid)
           (wf_initialize_grid _ wf_junk_grid) wf_junk_grid).
Defined.
